(** * Image_to_GPS: EXIF GPS extraction, verified against its specification

    A shallow embedding of [image_to_gps_gradio.py] and [streamlit_app.py]:
    the [ImageGpsExtractor] class (archive staging, HEIC normalisation,
    EXIF reading, DMS conversion, directory scan, CSV export) and the two
    drivers ([process_zip] and the Streamlit script body).

    Python [float] is IEEE-754 binary64; it is modelled with the Standard
    Library's executable specification [SpecFloat] at precision 53 and
    maximal exponent 1024.  The file system, the archive, the images and
    the user interface are explicit state threaded through a small
    state-and-exception monad. *)

From Stdlib Require Import ZArith List String Ascii Bool Lia Permutation Sorted.
From Stdlib Require Import DecimalString Mergesort Orders.
From Stdlib Require Import Floats.SpecFloat.
From stdpp Require Import gmap strings list fin_maps.

Open Scope Z_scope.

(** ** Python exceptions and results *)

Inductive exn : Type :=
  | ValueError (msg : string)
  | ZeroDivisionError
  | OverflowError
  | IndexError
  | AttributeError
  | KeyError (key : string)
  | FileNotFoundError (path : string)
  | BadZipFile
  | UnidentifiedImageError (path : string)
  | ExifReadError (path : string).

Inductive result (A : Type) : Type :=
  | Ok (a : A)
  | Raise (e : exn).
Arguments Ok {A} a.
Arguments Raise {A} e.

Definition rbind {A B} (r : result A) (k : A -> result B) : result B :=
  match r with
  | Ok a => k a
  | Raise e => Raise e
  end.

Declare Scope result_scope.
Delimit Scope result_scope with result.
Notation "x <-? r ; k" := (rbind r (fun x => k))
  (at level 100, r at next level, right associativity) : result_scope.

(** ** Python floats (binary64) *)

Module Float.

Definition prec : Z := 53.
Definition emax : Z := 1024.

Definition add : spec_float -> spec_float -> spec_float := SFadd prec emax.
Definition div : spec_float -> spec_float -> spec_float := SFdiv prec emax.
Definition neg : spec_float -> spec_float := SFopp.

(** The nearest binary64 value of an integer (ties to even). *)
Definition of_Z (n : Z) : spec_float := binary_normalize prec emax n 0 false.

Definition is_zero (f : spec_float) : bool :=
  match f with
  | S754_zero _ => true
  | _ => false
  end.

(** [bool(x)] for a float: false for [0.0] and [-0.0] only. *)
Definition truthy (f : spec_float) : bool := negb (is_zero f).

(** [x >= 0.0] *)
Definition ge0 (f : spec_float) : bool := SFleb (S754_zero false) f.

(** [float(n)] for a Python [int]: raises [OverflowError] when the
    integer is too large for a finite double. *)
Definition py_float (n : Z) : result spec_float :=
  match of_Z n with
  | S754_infinity _ => Raise OverflowError
  | f => Ok f
  end.

(** [x / y] on floats: raises [ZeroDivisionError] on a zero divisor. *)
Definition py_truediv (x y : spec_float) : result spec_float :=
  if is_zero y then Raise ZeroDivisionError else Ok (div x y).

(** The literals [60.0] and [3600.0]. *)
Definition f60 : spec_float := Eval vm_compute in of_Z 60.
Definition f3600 : spec_float := Eval vm_compute in of_Z 3600.

(** Shape of a value that compares [>= 0.0]. *)
Definition nonneg_shape (f : spec_float) : Prop :=
  match f with
  | S754_zero _ => True
  | S754_finite s _ _ => s = false
  | S754_infinity s => s = false
  | S754_nan => False
  end.

(** Result of rounding a mantissa of sign [s]. *)
Definition signed_shape (s : bool) (f : spec_float) : Prop :=
  match f with
  | S754_zero s' => s' = s
  | S754_finite s' _ _ => s' = s
  | S754_infinity s' => s' = s
  | S754_nan => False
  end.

End Float.

(** ** exifread values *)

(** [exifread.utils.Ratio]: numerator and denominator as read from the
    file (32-bit fields of an EXIF RATIONAL or SRATIONAL). *)
Record Ratio : Type := mkRatio { num : Z; den : Z }.

Inductive tag_values : Type :=
  | VStr (s : string)            (* ASCII field: a Python [str] *)
  | VRatios (l : list Ratio)     (* RATIONAL / SRATIONAL field *)
  | VInts (l : list Z).          (* BYTE / SHORT / LONG field *)

(** [exifread.classes.IfdTag]; it defines neither [__bool__] nor
    [__len__], so every tag object is truthy. *)
Record IfdTag : Type := mkIfdTag { printable : string; values : tag_values }.

Definition exif_int (n : Z) : Prop := - 2 ^ 31 <= n < 2 ^ 32.

Definition exif_ratio (r : Ratio) : Prop := exif_int (num r) /\ exif_int (den r).

(** ** The Coordinate Converter *)

Local Open Scope result_scope.

(** [float(r.num) / float(r.den)] *)
Definition ratio_to_float (r : Ratio) : result spec_float :=
  n <-? Float.py_float (num r);
  d <-? Float.py_float (den r);
  Float.py_truediv n d.

(** [value.values[i]] followed by the attribute accesses [.num], [.den]:
    indexing a [str] gives a one-character [str] (or [IndexError]), which
    has no attribute [num]; so has an [int]. *)
Definition values_item (v : tag_values) (i : nat) : result Ratio :=
  match v with
  | VRatios l =>
      match nth_error l i with
      | Some r => Ok r
      | None => Raise IndexError
      end
  | VInts l =>
      match nth_error l i with
      | Some _ => Raise AttributeError
      | None => Raise IndexError
      end
  | VStr s =>
      if Nat.ltb i (String.length s) then Raise AttributeError else Raise IndexError
  end.

Definition convert_to_degrees (value : IfdTag) : result spec_float :=
  r0 <-? values_item (values value) 0;
  d <-? ratio_to_float r0;
  r1 <-? values_item (values value) 1;
  m <-? ratio_to_float r1;
  r2 <-? values_item (values value) 2;
  s <-? ratio_to_float r2;
  m60 <-? Float.py_truediv m Float.f60;
  s3600 <-? Float.py_truediv s Float.f3600;
  Ok (Float.add (Float.add d m60) s3600).

(** A DMS triple as the converter accepts it: three EXIF rationals with
    non-zero denominators. *)
Definition valid_dms (d m s : Ratio) : Prop :=
  (exif_ratio d /\ den d <> 0) /\ (exif_ratio m /\ den m <> 0) /\ (exif_ratio s /\ den s <> 0).

(** Each component is non-negative as a fraction. *)
Definition nonneg_dms (d m s : Ratio) : Prop :=
  0 <= num d * den d /\ 0 <= num m * den m /\ 0 <= num s * den s.

(** The value the converter is specified to return, in binary64. *)
Definition ratio_quot (r : Ratio) : spec_float :=
  Float.div (Float.of_Z (num r)) (Float.of_Z (den r)).

Definition dms_degrees (d m s : Ratio) : spec_float :=
  Float.add
    (Float.add (ratio_quot d) (Float.div (ratio_quot m) Float.f60))
    (Float.div (ratio_quot s) Float.f3600).

(** ** Strings and paths *)

Definition ascii_lower (c : ascii) : ascii :=
  let n := nat_of_ascii c in
  if ((65 <=? n) && (n <=? 90))%nat then ascii_of_nat (n + 32) else c.

(** [s.lower()]; file names are byte strings here, and only the ASCII
    letters change case. *)
Fixpoint lower (s : string) : string :=
  match s with
  | EmptyString => EmptyString
  | String c s' => String (ascii_lower c) (lower s')
  end.

(** [s.endswith(suffix)] *)
Definition endswith (s suffix : string) : bool :=
  let n := String.length s in
  let k := String.length suffix in
  if (k <=? n)%nat then String.eqb (substring (n - k) k s) suffix else false.

Fixpoint has_slash (s : string) : bool :=
  match s with
  | EmptyString => false
  | String c s' => Ascii.eqb c "/" || has_slash s'
  end.

(** [os.path.basename(p)]: what follows the last ['/']. *)
Fixpoint basename (p : string) : string :=
  match p with
  | EmptyString => EmptyString
  | String c p' =>
      if has_slash p' then basename p'
      else if Ascii.eqb c "/" then p' else p
  end.

(** What precedes the last ['/'] (the [root] that [os.walk] reports for
    a file). *)
Fixpoint parent_dir (p : string) : string :=
  match p with
  | EmptyString => EmptyString
  | String c p' => if has_slash p' then String c (parent_dir p') else EmptyString
  end.

Fixpoint last_dot (s : string) : option nat :=
  match s with
  | EmptyString => None
  | String c s' =>
      match last_dot s' with
      | Some i => Some (S i)
      | None => if Ascii.eqb c "." then Some O else None
      end
  end.

Fixpoint all_dots (s : string) : bool :=
  match s with
  | EmptyString => true
  | String c s' => Ascii.eqb c "." && all_dots s'
  end.

(** [os.path.splitext(name)[0]] for a name without ['/']: the name is cut
    at its last dot unless only dots precede it. *)
Definition splitext_root (name : string) : string :=
  match last_dot name with
  | Some i => if all_dots (substring 0 i name) then name else substring 0 i name
  | None => name
  end.

(** [os.path.join(root, file)] *)
Definition path_join (root file : string) : string :=
  if String.prefix "/" file then file
  else if String.eqb root EmptyString || endswith root "/" then root ++ file
  else root ++ "/" ++ file.

(** [q] is [p] itself or lies below directory [p]. *)
Definition within (p q : string) : bool :=
  String.eqb q p || String.prefix (p ++ "/") q.

Definition below (p q : string) : bool := String.prefix (p ++ "/") q.

(** [s.strip()] is non-empty: some character is not white space. *)
Definition ascii_isspace (c : ascii) : bool :=
  let n := nat_of_ascii c in
  (((9 <=? n) && (n <=? 13)) || ((28 <=? n) && (n <=? 32)))%nat.

Fixpoint strip_truthy (s : string) : bool :=
  match s with
  | EmptyString => false
  | String c s' => negb (ascii_isspace c) || strip_truthy s'
  end.

(** ** Files, archives and the world *)

(** A regular file as the two libraries see it.  [pil_open] is
    [Image.open(path)]: a failure, or the image, of which the code reads
    only [image.info]: [Some b] when ["exif" in image.info] with block
    [b], [None] when the dictionary has no such key.  [exif_read] is
    [exifread.process_file(open(path, "rb"))].  An EXIF block is
    identified with what exifread decodes from a JPEG that carries it. *)
Definition exif_block : Type := result (gmap string IfdTag).

Record blob : Type := mkBlob {
  pil_open : result (option exif_block);
  exif_read : result (gmap string IfdTag)
}.

Inductive cell : Type :=
  | CStr (s : string)
  | CFloat (f : spec_float).

Record csv_table : Type := mkCsv { header : list string; rows : list (list cell) }.

Inductive file : Type :=
  | FBlob (b : blob)
  | FZip (entries : list (string * blob))
  | FCsv (t : csv_table).

Inductive event : Type :=
  | EvMakedirs (path : string)
  | EvRmtree (path : string)
  | EvExtractAll (dest : string)
  | EvWalk (folder : string)
  | EvImageOpen (path : string)
  | EvImageSave (path : string) (with_exif : bool)
  | EvOpenRead (path : string)
  | EvToCsv (path : string)
  | EvStWarning (msg : string)
  | EvStError (e : exn)
  | EvStDownload (t : csv_table)
  | EvStMap (points : list (spec_float * spec_float)).

Record world : Type := mkWorld {
  files : gmap string file;
  dirs : gset string;       (* directories created explicitly *)
  log : list event          (* effects performed, oldest first *)
}.

(** ** The state-and-exception monad *)

Definition M (A : Type) : Type := world -> world * result A.

Definition ret {A} (a : A) : M A := fun w => (w, Ok a).
Definition raise {A} (e : exn) : M A := fun w => (w, Raise e).
Definition lift {A} (r : result A) : M A := fun w => (w, r).

Definition bind {A B} (m : M A) (k : A -> M B) : M B :=
  fun w =>
    match m w with
    | (w', Ok a) => k a w'
    | (w', Raise e) => (w', Raise e)
    end.

(** [try: m except Exception as e: h e] *)
Definition try_except {A} (m : M A) (h : exn -> M A) : M A :=
  fun w =>
    match m w with
    | (w', Ok a) => (w', Ok a)
    | (w', Raise e) => h e w'
    end.

Declare Scope io_scope.
Delimit Scope io_scope with io.
Notation "x <- m ;; k" := (bind m (fun x => k))
  (at level 100, m at next level, right associativity) : io_scope.
Notation "m ;; k" := (bind m (fun _ => k))
  (at level 100, right associativity) : io_scope.

Definition emit (ev : event) : M unit :=
  fun w => (mkWorld (files w) (dirs w) (log w ++ [ev]), Ok tt).

Local Open Scope io_scope.

(** ** File-system primitives *)

(** [os.path.exists(p)]: [p] exists when it is a file or a created
    directory, or when a file or a created directory lies below it. *)
Definition path_exists (p : string) : M bool :=
  fun w =>
    (w, Ok (negb (bool_decide (filter (fun d => within p d = true) (dirs w) = ∅))
            || negb (bool_decide (filter (fun kv => within p kv.1 = true) (files w) = ∅)))).

(** [shutil.rmtree(p)] *)
Definition rmtree (p : string) : M unit :=
  emit (EvRmtree p) ;;
  fun w =>
    (mkWorld (filter (fun kv => within p kv.1 = false) (files w))
             (filter (fun d => within p d = false) (dirs w))
             (log w), Ok tt).

(** The idiom [if os.path.exists(p): shutil.rmtree(p)]. *)
Definition clear_dir (p : string) : M unit :=
  exists_ <- path_exists p ;;
  if exists_ then rmtree p else ret tt.

(** [os.makedirs(p, exist_ok=True)] *)
Definition makedirs (p : string) : M unit :=
  emit (EvMakedirs p) ;;
  fun w => (mkWorld (files w) ({[ p ]} ∪ dirs w) (log w), Ok tt).

Definition write_file (p : string) (f : file) : M unit :=
  fun w => (mkWorld (<[ p := f ]> (files w)) (dirs w) (log w), Ok tt).

(** [Image.open(p)] of Pillow with the HEIF opener registered. *)
Definition image_open (p : string) : M (option exif_block) :=
  emit (EvImageOpen p) ;;
  fun w =>
    match files w !! p with
    | Some (FBlob b) => (w, pil_open b)
    | Some _ => (w, Raise (UnidentifiedImageError p))
    | None => (w, Raise (FileNotFoundError p))
    end.

(** The JPEG file that [image.save(path, format="JPEG", exif=...)]
    writes: Pillow reopens it with the same block, and exifread decodes
    that block; without a block there is nothing to decode. *)
Definition saved_jpeg (exif : option exif_block) : blob :=
  match exif with
  | Some b => mkBlob (Ok (Some b)) b
  | None => mkBlob (Ok None) (Ok ∅)
  end.

Definition image_save (p : string) (exif : option exif_block) : M unit :=
  emit (EvImageSave p (bool_decide (is_Some exif))) ;;
  write_file p (FBlob (saved_jpeg exif)).

(** [with open(p, "rb") as f: tags = exifread.process_file(f)]; exifread
    finds no EXIF data in a file that is not an image. *)
Definition tags_of_file (w : world) (p : string) : result (gmap string IfdTag) :=
  match files w !! p with
  | Some (FBlob b) => exif_read b
  | Some _ => Ok ∅
  | None => Raise (FileNotFoundError p)
  end.

Definition open_exifread (p : string) : M (gmap string IfdTag) :=
  emit (EvOpenRead p) ;;
  fun w => (w, tags_of_file w p).

(** [os.walk(folder)], flattened to the pairs [(root, file)] the two
    nested loops visit.  The enumeration order of the map stands for the
    platform's directory order.  The tree is listed when the walk
    starts: the scratch directory, the only place written during a scan,
    lies outside the unpacked archive that the drivers scan. *)
Definition os_walk (folder : string) : M (list (string * string)) :=
  emit (EvWalk folder) ;;
  fun w =>
    (w, Ok ((fun kv => (parent_dir kv.1, basename kv.1))
              <$> filter (fun kv => below folder kv.1 = true) (map_to_list (files w)))).

(** An archive to unpack: a path (Gradio) or the uploaded bytes
    (Streamlit's [BytesIO]). *)
Inductive zip_source : Type :=
  | ZipPath (p : string)
  | ZipBytes (f : file).

(** [zipfile.ZipFile(src, "r")] *)
Definition zip_open (src : zip_source) : M (list (string * blob)) :=
  fun w =>
    match src with
    | ZipPath p =>
        match files w !! p with
        | Some (FZip es) => (w, Ok es)
        | Some _ => (w, Raise BadZipFile)
        | None => (w, Raise (FileNotFoundError p))
        end
    | ZipBytes (FZip es) => (w, Ok es)
    | ZipBytes _ => (w, Raise BadZipFile)
    end.

Fixpoint split_slash (s : string) : list string :=
  match s with
  | EmptyString => [EmptyString]
  | String c s' =>
      if Ascii.eqb c "/" then EmptyString :: split_slash s'
      else match split_slash s' with
           | x :: r => String c x :: r
           | [] => [String c EmptyString]
           end
  end.

Fixpoint join_slash (parts : list string) : string :=
  match parts with
  | [] => EmptyString
  | [x] => x
  | x :: r => x ++ "/" ++ join_slash r
  end.

(** The member name as [ZipFile._extract_member] uses it: empty, ["."]
    and [".."] components are dropped. *)
Definition arcname (name : string) : string :=
  join_slash (filter (fun x => x <> EmptyString /\ x <> "." /\ x <> "..") (split_slash name)).

(** Extraction of one member: a name that ends in ['/'] is a directory. *)
Definition extract_member (dest : string) (e : string * blob) : M unit :=
  if endswith e.1 "/" then
    fun w => (mkWorld (files w) ({[ path_join dest (arcname e.1) ]} ∪ dirs w) (log w), Ok tt)
  else if String.eqb (arcname e.1) EmptyString then raise (ValueError "Empty filename.")
  else write_file (path_join dest (arcname e.1)) (FBlob e.2).

Fixpoint extract_members (dest : string) (es : list (string * blob)) : M unit :=
  match es with
  | [] => ret tt
  | e :: rest => extract_member dest e ;; extract_members dest rest
  end.

(** [zip_ref.extractall(dest)] *)
Definition extractall (es : list (string * blob)) (dest : string) : M unit :=
  emit (EvExtractAll dest) ;;
  extract_members dest es.

(** ** ImageGpsExtractor *)

(** The instance fields.  [user_id] is [None] for the class of
    [image_to_gps_gradio.py] and the student number for the class of
    [streamlit_app.py]. *)
Record extractor : Type := mkExtractor {
  output_folder : string;
  user_id : option string
}.

Definition unzip_path (self : extractor) : string := output_folder self ++ "/unzip".
Definition jpg_path (self : extractor) : string := output_folder self ++ "/jpg".
Definition csv_path (self : extractor) : string := output_folder self ++ "/gps_data.csv".

(** [__init__] *)
Definition ImageGpsExtractor (folder : string) (uid : option string) : M extractor :=
  let self := mkExtractor folder uid in
  makedirs (unzip_path self) ;;
  ret self.

Definition extract_zip (self : extractor) (zip_file : zip_source) : M string :=
  clear_dir (unzip_path self) ;;
  (match user_id self with
   | Some _ => makedirs (unzip_path self)
   | None => ret tt
   end) ;;
  es <- zip_open zip_file ;;
  extractall es (unzip_path self) ;;
  ret (unzip_path self).

(** [tag.values != "N"] *)
Definition values_ne (v : tag_values) (s : string) : bool :=
  match v with
  | VStr s' => negb (String.eqb s' s)
  | _ => true
  end.

(** All four GPS tags are in the dictionary. *)
Definition four_gps_tags (tags : gmap string IfdTag) : Prop :=
  is_Some (tags !! "GPS GPSLatitude") /\ is_Some (tags !! "GPS GPSLatitudeRef")
  /\ is_Some (tags !! "GPS GPSLongitude") /\ is_Some (tags !! "GPS GPSLongitudeRef").

(** The triple [(lat, lon, date_time)] of [get_gps_info]. *)
Definition gps_triple : Type := option spec_float * option spec_float * option string.

(** The body of the [with] block of [get_gps_info]: from the tag
    dictionary to the returned triple. *)
Definition gps_from_tags (tags : gmap string IfdTag) : result gps_triple :=
  let gps_latitude := tags !! "GPS GPSLatitude" in
  let gps_latitude_ref := tags !! "GPS GPSLatitudeRef" in
  let gps_longitude := tags !! "GPS GPSLongitude" in
  let gps_longitude_ref := tags !! "GPS GPSLongitudeRef" in
  let date_time := tags !! "EXIF DateTimeOriginal" in
  (latlon <-? match gps_latitude, gps_latitude_ref, gps_longitude, gps_longitude_ref with
              | Some la, Some la_ref, Some lo, Some lo_ref =>
                  lat <-? convert_to_degrees la;
                  lon <-? convert_to_degrees lo;
                  let lat := if values_ne (values la_ref) "N" then Float.neg lat else lat in
                  let lon := if values_ne (values lo_ref) "E" then Float.neg lon else lon in
                  Ok (Some lat, Some lon)
              | _, _, _, _ => Ok (None, None)
              end;
   Ok (latlon.1, latlon.2, printable <$> date_time))%result.

(** The path of the transcoded copy of a HEIC file. *)
Definition temp_path (self : extractor) (file_path : string) : string :=
  jpg_path self ++ "/" ++ splitext_root (basename file_path) ++ ".jpg".

(** The HEIC branch of [get_gps_info] (the Format Normalizer); returns
    the path to read. *)
Definition normalize_heic (self : extractor) (file_path : string) : M string :=
  clear_dir (jpg_path self) ;;
  makedirs (jpg_path self) ;;
  exif <- image_open file_path ;;
  image_save (temp_path self file_path) exif ;;
  ret (temp_path self file_path).

(** The path whose EXIF data [get_gps_info] parses. *)
Definition read_path (self : extractor) (file_path : string) : string :=
  if endswith (lower file_path) ".heic" then temp_path self file_path else file_path.

Definition get_gps_info (self : extractor) (file_path : string) : M gps_triple :=
  file_path <- (if endswith (lower file_path) ".heic"
                then normalize_heic self file_path
                else ret file_path) ;;
  tags <- open_exifread file_path ;;
  lift (gps_from_tags tags).

(** One entry of the batch (a Python [dict]). *)
Record record : Type := mkRecord {
  UserID : option string;
  File : string;
  Latitude : spec_float;
  Longitude : spec_float;
  DateTime : option string
}.

(** Truthiness of [lat] and of [lon]: [None] and zero are falsy. *)
Definition coord_truthy (c : option spec_float) : bool :=
  match c with
  | Some f => Float.truthy f
  | None => false
  end.

Definition supported_ext (file : string) : bool :=
  endswith (lower file) ".jpg" || endswith (lower file) ".jpeg"
  || endswith (lower file) ".png" || endswith (lower file) ".heic".

(** The two nested loops of [extract_gps_from_images] over the entries
    that [os.walk] yields, with the list [data] built so far. *)
Fixpoint scan_files (self : extractor) (entries : list (string * string))
    (data : list record) : M (list record) :=
  match entries with
  | [] => ret data
  | (root, file) :: rest =>
      if supported_ext file then
        t <- get_gps_info self (path_join root file) ;;
        let '(lat, lon, date_time) := t in
        if coord_truthy lat && coord_truthy lon then
          match lat, lon with
          | Some la, Some lo =>
              scan_files self rest (data ++ [mkRecord (user_id self) file la lo date_time])
          | _, _ => scan_files self rest data   (* not reached: [None] is falsy *)
          end
        else scan_files self rest data
      else scan_files self rest data
  end.

Definition extract_gps_from_images (self : extractor) (folder : string) : M (list record) :=
  entries <- os_walk folder ;;
  scan_files self entries [].



(** Events of the Export Builder, and logs without any. *)
Definition is_export (ev : event) : bool :=
  match ev with
  | EvToCsv _ => true
  | _ => false
  end.

Definition no_export (l : list event) : Prop := Forall (fun ev => is_export ev = false) l.

(** A computation that only appends events other than exports. *)
Definition quiet {A} (m : M A) : Prop :=
  forall w, exists l, log (m w).1 = log w ++ l /\ no_export l.

(** ** The Export Builder *)

(** A [datetime64[ns]] value by its calendar fields. *)
Record Timestamp : Type := mkTimestamp {
  year : Z; month : Z; day : Z; hour : Z; minute : Z; second : Z
}.

Definition days_from_civil (y m d : Z) : Z :=
  let y' := if m <=? 2 then y - 1 else y in
  let era := y' / 400 in
  let yoe := y' - era * 400 in
  let mp := (m + 9) mod 12 in
  let doy := (153 * mp + 2) / 5 + d - 1 in
  let doe := yoe * 365 + yoe / 4 - yoe / 100 + doy in
  era * 146097 + doe - 719468.

(** Nanoseconds since the epoch: the integer pandas sorts by. *)
Definition timestamp_ns (t : Timestamp) : Z :=
  (days_from_civil (year t) (month t) (day t) * 86400
   + hour t * 3600 + minute t * 60 + second t) * 1000000000.

Definition dec (n : Z) : string :=
  DecimalString.NilZero.string_of_uint (N.to_uint (Z.to_N n)).

Definition pad2 (n : Z) : string := if n <? 10 then "0" ++ dec n else dec n.

Definition is_midnight (t : Timestamp) : bool :=
  (hour t =? 0) && (minute t =? 0) && (second t =? 0).

(** How [to_csv] prints a [datetime64] column: ISO date and time, or the
    date alone when every timestamp of the column is at midnight; [NaT]
    prints as the empty string. *)
Definition format_datetime (dates_only : bool) (t : Timestamp) : string :=
  dec (year t) ++ "-" ++ pad2 (month t) ++ "-" ++ pad2 (day t)
  ++ (if dates_only then EmptyString
      else " " ++ pad2 (hour t) ++ ":" ++ pad2 (minute t) ++ ":" ++ pad2 (second t)).

Definition is_dates_only (col : list (option Timestamp)) : bool :=
  forallb (fun o => match o with Some t => is_midnight t | None => true end) col.

Definition format_cell (dates_only : bool) (o : option Timestamp) : string :=
  match o with
  | Some t => format_datetime dates_only t
  | None => EmptyString
  end.

Section ExportBuilder.

(** pandas and NumPy are taken as given.  [strptime] parses one text
    against ["%Y:%m:%d %H:%M:%S"] ([None] is [NaT], the outcome of
    [errors="coerce"]); [argsort] is [ndarray.argsort(kind="quicksort")]. *)
Variable strptime : string -> option Timestamp.
Variable argsort : list Z -> list nat.

(** [pd.to_datetime(df["DateTime"], format=..., errors="coerce")] on
    one cell: a missing value stays missing. *)
Definition to_datetime (raw : option string) : option Timestamp :=
  match raw with
  | Some s => strptime s
  | None => None
  end.

(** A row of the data frame once the [DateTime] column is replaced. *)
Definition df_row : Type := record * option Timestamp.

Definition row_key (r : df_row) : option Z := timestamp_ns <$> r.2.

(** [pandas.core.sorting.nargsort] with [ascending=True] and
    [na_position="last"]: the rows without a key are set aside, the
    others are ordered by [argsort], the rows set aside follow. *)
Definition nargsort (items : list (option Z)) : list nat :=
  let idx := seq 0 (length items) in
  let is_nan := fun i : nat =>
    match items !! i with Some (Some _) => false | _ => true end in
  let non_nans := omap id items in
  let non_nan_idx := filter (fun i => is_nan i = false) idx in
  let nan_idx := filter (fun i => is_nan i = true) idx in
  ((fun j : nat => nth j non_nan_idx O) <$> argsort non_nans) ++ nan_idx.

(** [df.sort_values(by="DateTime", ascending=True)] *)
Definition sort_values (df : list df_row) : list df_row :=
  omap (fun i : nat => df !! i) (nargsort (row_key <$> df)).

(** The frame after [df["DateTime"] = pd.to_datetime(...)]. *)
Definition data_frame (data : list record) : list df_row :=
  (fun r => (r, to_datetime (DateTime r))) <$> data.

(** The row has no sort key ([NaT]). *)
Definition is_nat_row (r : df_row) : bool :=
  match row_key r with
  | Some _ => false
  | None => true
  end.

(** Stability: for every key, missing or not, the rows that have it
    come in the same relative order in [out] as in [df]. *)
Definition keeps_batch_order (df out : list df_row) : Prop :=
  forall k : option Z,
    filter (fun r => row_key r = k) out = filter (fun r => row_key r = k) df.

Definition columns (data : list record) : list string :=
  (if existsb (fun r => bool_decide (is_Some (UserID r))) data then ["UserID"] else [])
  ++ ["File"; "Latitude"; "Longitude"; "DateTime"].

Definition csv_row (with_uid dates_only : bool) (r : df_row) : list cell :=
  (if with_uid then [CStr (default EmptyString (UserID r.1))] else [])
  ++ [CStr (File r.1); CFloat (Latitude r.1); CFloat (Longitude r.1);
      CStr (format_cell dates_only r.2)].

(** The table that [df.to_csv(csv_path, index=False)] writes. *)
Definition export_table (data : list record) : csv_table :=
  let sorted := sort_values (data_frame data) in
  let with_uid := existsb (fun r => bool_decide (is_Some (UserID r))) data in
  mkCsv (columns data) (csv_row with_uid (is_dates_only (snd <$> sorted)) <$> sorted).

Definition to_csv (path : string) (t : csv_table) : M unit :=
  emit (EvToCsv path) ;;
  write_file path (FCsv t).

(** An empty list gives a frame without columns, and [df["DateTime"]]
    raises [KeyError]. *)
Definition save_to_csv (self : extractor) (data : list record) : M string :=
  match data with
  | [] => raise (KeyError "DateTime")
  | _ =>
      (match user_id self with
       | Some _ => makedirs (output_folder self)
       | None => ret tt
       end) ;;
      to_csv (csv_path self) (export_table data) ;;
      ret (csv_path self)
  end.

(** ** The drivers *)

Definition msg_upload : string := "ファイルをアップロードしてください。".
Definition msg_zip_only : string := "アップロード可能なファイルは .zip のみです。".
Definition msg_no_gps : string := "GPS情報が含まれる画像が見つかりませんでした。".
(** The text of [st.warning] in [streamlit_app.py]. *)
Definition msg_st_no_gps : string := "⚠️ GPS情報が含まれる画像が見つかりませんでした。".

(** The module-level instance of [image_to_gps_gradio.py]. *)
Definition gradio_extractor : extractor := mkExtractor "output" None.

Definition process_zip (zip_file : option string) : M string :=
  match zip_file with
  | None => raise (ValueError msg_upload)
  | Some zip_file =>
      if negb (endswith (lower zip_file) ".zip")
      then raise (ValueError msg_zip_only)
      else
        extracted_path <- extract_zip gradio_extractor (ZipPath zip_file) ;;
        data <- extract_gps_from_images gradio_extractor extracted_path ;;
        match data with
        | [] => raise (ValueError msg_no_gps)
        | _ => save_to_csv gradio_extractor data
        end
  end.

(** [open(csv_path, "rb").read()] *)
Definition read_csv_bytes (path : string) : M csv_table :=
  fun w =>
    match files w !! path with
    | Some (FCsv t) => (w, Ok t)
    | Some _ => (w, Ok (mkCsv [] []))
    | None => (w, Raise (FileNotFoundError path))
    end.

(** The script body of [streamlit_app.py] for one rerun, from the text
    input and the uploader's value onwards. *)
Definition streamlit_app (uid : string) (uploaded_file : option file) : M unit :=
  match uploaded_file with
  | Some content =>
      if strip_truthy uid then
        try_except
          (self <- ImageGpsExtractor "output" (Some uid) ;;
           extracted_path <- extract_zip self (ZipBytes content) ;;
           data <- extract_gps_from_images self extracted_path ;;
           match data with
           | [] => emit (EvStWarning msg_st_no_gps)
           | _ =>
               path <- save_to_csv self data ;;
               csv_data <- read_csv_bytes path ;;
               emit (EvStDownload csv_data) ;;
               emit (EvStMap ((fun r => (Latitude r, Longitude r)) <$> data))
           end)
          (fun e => emit (EvStError e))
      else ret tt
  | None => ret tt
  end.

End ExportBuilder.

(** ** Instances of the pandas and NumPy parameters *)

(** A parser for the canonical 19-character EXIF form
    [YYYY:MM:DD HH:MM:SS] within the range of [datetime64[ns]]. *)
Definition digit_value (c : ascii) : option Z :=
  let n := nat_of_ascii c in
  if ((48 <=? n) && (n <=? 57))%nat then Some (Z.of_nat (n - 48)) else None.

Fixpoint digits_value (s : string) (acc : Z) : option Z :=
  match s with
  | EmptyString => Some acc
  | String c s' =>
      match digit_value c with
      | Some d => digits_value s' (10 * acc + d)
      | None => None
      end
  end.

Definition field (s : string) (start len : nat) : option Z :=
  digits_value (substring start len s) 0.

Definition is_leap (y : Z) : bool :=
  ((y mod 4 =? 0) && negb (y mod 100 =? 0)) || (y mod 400 =? 0).

Definition days_in_month (y m : Z) : Z :=
  if m =? 2 then (if is_leap y then 29 else 28)
  else if (m =? 4) || (m =? 6) || (m =? 9) || (m =? 11) then 30
  else 31.

Definition strptime_exif (s : string) : option Timestamp :=
  if negb (Nat.eqb (String.length s) 19) then None
  else if negb (String.eqb (substring 4 1 s) ":" && String.eqb (substring 7 1 s) ":"
                && String.eqb (substring 10 1 s) " " && String.eqb (substring 13 1 s) ":"
                && String.eqb (substring 16 1 s) ":") then None
  else
    y ← field s 0 4; mo ← field s 5 2; d ← field s 8 2;
    h ← field s 11 2; mi ← field s 14 2; sec ← field s 17 2;
    if (1678 <=? y) && (y <=? 2261) && (1 <=? mo) && (mo <=? 12)
       && (1 <=? d) && (d <=? days_in_month y mo)
       && (h <? 24) && (mi <? 60) && (sec <? 60)
    then Some (mkTimestamp y mo d h mi sec)
    else None.

(** Sorting pairs (key, position) by insertion: by key, and among equal
    keys as [tie] orders the positions. *)
Definition pair_leb (tie : nat -> nat -> bool) (a b : Z * nat) : bool :=
  (a.1 <? b.1) || ((a.1 =? b.1) && tie a.2 b.2).

Fixpoint insert_by (leb : Z * nat -> Z * nat -> bool) (x : Z * nat)
    (l : list (Z * nat)) : list (Z * nat) :=
  match l with
  | [] => [x]
  | y :: l' => if leb x y then x :: y :: l' else y :: insert_by leb x l'
  end.

Fixpoint isort_by (leb : Z * nat -> Z * nat -> bool) (l : list (Z * nat)) : list (Z * nat) :=
  match l with
  | [] => []
  | x :: l' => insert_by leb x (isort_by leb l')
  end.

Definition argsort_by (tie : nat -> nat -> bool) (keys : list Z) : list nat :=
  snd <$> isort_by (pair_leb tie) (zip keys (seq 0 (length keys))).

(** An argsort that keeps equal keys in their original order, and one
    that reverses them; both order the keys. *)
Definition argsort_stable : list Z -> list nat := argsort_by Nat.leb.
Definition argsort_reversing : list Z -> list nat := argsort_by (fun i j => Nat.leb j i).

(** What NumPy promises of [argsort]: a permutation of the positions
    that lists the keys in ascending order. *)
Definition argsort_spec (argsort : list Z -> list nat) : Prop :=
  forall keys : list Z,
    Permutation (argsort keys) (seq 0 (length keys))
    /\ Sorted Z.le ((fun i : nat => nth i keys 0) <$> argsort keys).


(** ** Sample inputs *)

Definition dms_tag (d m s : Z) : IfdTag :=
  mkIfdTag "dms" (VRatios [mkRatio d 1; mkRatio m 1; mkRatio s 1]).

Definition ascii_tag (s : string) : IfdTag := mkIfdTag s (VStr s).

Definition gps_tags (la : IfdTag) (la_ref : string) (lo : IfdTag) (lo_ref : string)
    (date_time : option string) : gmap string IfdTag :=
  let base : gmap string IfdTag :=
    <[ "GPS GPSLatitude" := la ]>
      (<[ "GPS GPSLatitudeRef" := ascii_tag la_ref ]>
         (<[ "GPS GPSLongitude" := lo ]>
            (<[ "GPS GPSLongitudeRef" := ascii_tag lo_ref ]> ∅))) in
  match date_time with
  | Some s => <[ "EXIF DateTimeOriginal" := ascii_tag s ]> base
  | None => base
  end.

(** 35 deg 40' 12'' N, 139 deg 45' 30'' E. *)
Definition tokyo_tags : gmap string IfdTag :=
  gps_tags (dms_tag 35 40 12) "N" (dms_tag 139 45 30) "E" (Some "2024:01:02 03:04:05").

(** A point on the equator. *)
Definition equator_tags : gmap string IfdTag :=
  gps_tags (dms_tag 0 0 0) "N" (dms_tag 139 45 30) "E" (Some "2024:01:02 03:04:05").

(** A JPEG file whose EXIF block holds the given tags; a JPEG file
    without EXIF block; a file that is no image. *)
Definition jpeg_file (tags : gmap string IfdTag) : blob :=
  mkBlob (Ok (Some (Ok tags))) (Ok tags).
Definition jpeg_no_exif : blob := mkBlob (Ok None) (Ok ∅).
Definition text_file : blob :=
  mkBlob (Raise (UnidentifiedImageError "cannot identify image file")) (Ok ∅).

(** A HEIC file with the given EXIF block; a corrupt file. *)
Definition heic_file (exif : option exif_block) : blob := mkBlob (Ok exif) (Ok ∅).
Definition corrupt_file : blob :=
  mkBlob (Raise (UnidentifiedImageError "cannot identify image file"))
         (Raise (ExifReadError "corrupt")).

Definition two_heic_files : list (string * blob) :=
  [("output/unzip/a.heic", heic_file (Some (Ok tokyo_tags)));
   ("output/unzip/b.heic", heic_file (Some (Ok tokyo_tags)))].

Definition staged (l : list (string * blob)) : world :=
  mkWorld (list_to_map ((fun e => (e.1, FBlob e.2)) <$> l)) ∅ [].

Definition two_heic : world := staged two_heic_files.

(** A corrupt HEIC file next to a JPEG with complete GPS tags. *)
Definition one_bad_file : world :=
  staged [("output/unzip/bad.heic", corrupt_file);
          ("output/unzip/good.jpg", jpeg_file tokyo_tags)].

Definition good_record : record :=
  mkRecord None "good.jpg" (S754_finite false 5020106209634549 (-47))
    (S754_finite false 4917309202515012 (-45)) (Some "2024:01:02 03:04:05").

(** A single image taken on the equator. *)
Definition equator_dir : world := staged [("output/unzip/eq.jpg", jpeg_file equator_tags)].

(** A world that holds an archive [up.zip] of images without GPS data. *)
Definition no_gps_archive : world :=
  mkWorld {[ "up.zip" := FZip [("c.heic", heic_file None);
                               ("sub/n.jpg", jpeg_no_exif);
                               ("notes.txt", text_file)] ]} ∅ [].

(** Eighteen photographs taken in the same second. *)
Definition tied_batch : list record :=
  (fun i : Z =>
     mkRecord None ("img" ++ pad2 i ++ ".jpg")
       (S754_finite false 5020106209634549 (-47))
       (S754_finite false 4917309202515012 (-45))
       (Some "2024:01:02 03:04:05"))
  <$> [0; 1; 2; 3; 4; 5; 6; 7; 8; 9; 10; 11; 12; 13; 14; 15; 16; 17].

(** A dated, an undated and an earlier photograph. *)
Definition mixed_batch : list record :=
  [mkRecord None "late.jpg" (S754_finite false 5020106209634549 (-47))
     (S754_finite false 4917309202515012 (-45)) (Some "2024:05:06 07:08:09");
   mkRecord None "undated.jpg" (S754_finite false 5020106209634549 (-47))
     (S754_finite false 4917309202515012 (-45)) None;
   mkRecord None "garbled.jpg" (S754_finite false 5020106209634549 (-47))
     (S754_finite false 4917309202515012 (-45)) (Some "yesterday");
   mkRecord None "early.jpg" (S754_finite false 5020106209634549 (-47))
     (S754_finite false 4917309202515012 (-45)) (Some "2024:01:02 03:04:05")].

(** ** Notions and inputs of the further properties *)

(** [f <= 0.0] *)
Definition float_le0 (f : spec_float) : bool := SFleb f (S754_zero false).

(** The names of the files the scan visits: the entries of the walk with a
    supported extension, in the order of the walk. *)
Definition visited_names (entries : list (string * string)) : list string :=
  snd <$> filter (fun e => supported_ext e.2 = true) entries.

(** The members of what is given to [zipfile.ZipFile], when it is an
    archive. *)
Definition archive_entries (src : zip_source) (w : world) : option (list (string * blob)) :=
  match src with
  | ZipPath p =>
      match files w !! p with
      | Some (FZip es) => Some es
      | _ => None
      end
  | ZipBytes (FZip es) => Some es
  | ZipBytes _ => None
  end.


(** The frame [df[["latitude", "longitude"]]] given to [st.map]. *)
Definition points (data : list record) : list (spec_float * spec_float) :=
  (fun r => (Latitude r, Longitude r)) <$> data.

(** A point in the southern and western hemispheres, without and with a
    timestamp. *)
Definition rio_tags : gmap string IfdTag :=
  gps_tags (dms_tag 22 54 30) "S" (dms_tag 43 10 12) "W" None.


(** A latitude alone, next to the timestamp. *)
Definition latitude_only_tags : gmap string IfdTag :=
  <[ "GPS GPSLatitude" := mkIfdTag "[0/0]" (VRatios [mkRatio 0 0]) ]>
    (<[ "EXIF DateTimeOriginal" := ascii_tag "2024:01:02 03:04:05" ]> ∅).

(** What a receiver without a fix writes: [0/0] three times. *)
Definition no_fix_tag : IfdTag :=
  mkIfdTag "[0/0, 0/0, 0/0]" (VRatios [mkRatio 0 0; mkRatio 0 0; mkRatio 0 0]).

Definition no_fix_tags : gmap string IfdTag :=
  gps_tags no_fix_tag "N" no_fix_tag "E" (Some "2024:01:02 03:04:05").

(** Unpacked trees: two images and a text file; documents only. *)
Definition trip_dir : world :=
  staged [("output/unzip/eq.jpg", jpeg_file equator_tags);
          ("output/unzip/good.jpg", jpeg_file tokyo_tags);
          ("output/unzip/notes.txt", text_file)].

Definition documents_dir : world :=
  staged [("output/unzip/readme.txt", text_file); ("output/unzip/scan.tiff", text_file)].

(** The state an earlier run leaves: its unpacked image and its export,
    next to a new archive and a text file named as one. *)
Definition stale_run : world :=
  mkWorld {[ "up.zip" := FZip [("trip/a.jpg", jpeg_file tokyo_tags)] ;
             "notes.zip" := FBlob text_file ;
             "output/unzip/old.jpg" := FBlob (jpeg_file equator_tags) ;
             "output/gps_data.csv" := FCsv (mkCsv ["File"] [[CStr "old.jpg"]]) ]} ∅ [].

(** An archive whose member names point out of the destination. *)
Definition slip_archive : file :=
  FZip [("../../home/x.jpg", jpeg_file tokyo_tags); ("/abs/b.jpg", jpeg_file tokyo_tags)].







(** * Verification *)

(** ** Facts about binary64 rounding *)

Lemma digits2_pos_iter_xO (p k : positive) :
  digits2_pos (Pos.iter xO p k) = (digits2_pos p + k)%positive.
Proof.
  induction k as [|k IH] using Pos.peano_ind.
  - simpl. lia.
  - rewrite Pos.iter_succ. simpl. rewrite IH. lia.
Qed.

Lemma digits2_pos_pow (p : positive) : 2 ^ (Zpos (digits2_pos p) - 1) <= Zpos p.
Proof.
  induction p as [p IH|p IH|]; simpl digits2_pos.
  - rewrite Pos2Z.inj_succ.
    replace (Z.succ (Zpos (digits2_pos p)) - 1) with (Z.succ (Zpos (digits2_pos p) - 1)) by lia.
    rewrite Z.pow_succ_r by lia. lia.
  - rewrite Pos2Z.inj_succ.
    replace (Z.succ (Zpos (digits2_pos p)) - 1) with (Z.succ (Zpos (digits2_pos p) - 1)) by lia.
    rewrite Z.pow_succ_r by lia. lia.
  - simpl. lia.
Qed.

Lemma digits2_pos_bound (p : positive) (k : Z) :
  0 <= k -> Zpos p < 2 ^ k -> Zpos (digits2_pos p) <= k.
Proof.
  intros Hk Hp.
  pose proof (digits2_pos_pow p) as Hlow.
  destruct (Z_le_gt_dec (Zpos (digits2_pos p)) k) as [|Hgt]; [assumption|].
  assert (2 ^ k <= 2 ^ (Zpos (digits2_pos p) - 1)) by (apply Z.pow_le_mono_r; lia).
  lia.
Qed.

Lemma shr_m_of_loc (m : Z) (l : location) : shr_m (shr_record_of_loc m l) = m.
Proof. destruct l as [|[]]; reflexivity. Qed.

Lemma shr_1_nonneg (mrs : shr_record) : 0 <= shr_m mrs -> 0 <= shr_m (shr_1 mrs).
Proof.
  destruct mrs as [m r s]. simpl.
  destruct m as [|[p|p|]|[p|p|]]; simpl; lia.
Qed.

Lemma iter_pos_invariant {A} (P : A -> Prop) (f : A -> A) :
  (forall x, P x -> P (f x)) -> forall (n : positive) (x : A), P x -> P (SpecFloat.iter_pos f n x).
Proof.
  intros Hf n. induction n as [n IH|n IH|]; intros x Hx; simpl; auto.
Qed.

Lemma shr_fexp_nonneg (prec emax m e : Z) (l : location) :
  0 <= m -> 0 <= shr_m (shr_fexp prec emax m e l).1.
Proof.
  intros Hm. unfold shr_fexp, shr.
  destruct (fexp prec emax (Zdigits2 m + e) - e) as [|n|n]; simpl;
    try (rewrite shr_m_of_loc; assumption).
  apply (iter_pos_invariant (fun mrs => 0 <= shr_m mrs)).
  - apply shr_1_nonneg.
  - rewrite shr_m_of_loc; assumption.
Qed.

Lemma round_nearest_even_nonneg (m : Z) (l : location) :
  0 <= m -> 0 <= round_nearest_even m l.
Proof.
  intros Hm. destruct l as [|[]]; simpl; try lia.
  destruct (Z.even m); lia.
Qed.

Lemma binary_round_aux_signed (prec emax : Z) (s : bool) (m e : Z) (l : location) :
  0 <= m -> Float.signed_shape s (binary_round_aux prec emax s m e l).
Proof.
  intros Hm. unfold binary_round_aux.
  pose proof (shr_fexp_nonneg prec emax m e l Hm) as H1.
  destruct (shr_fexp prec emax m e l) as [mrs' e'].
  simpl in H1.
  pose proof (shr_fexp_nonneg prec emax _ e' loc_Exact
                (round_nearest_even_nonneg _ (loc_of_shr_record mrs') H1)) as H2.
  destruct (shr_fexp prec emax _ e' loc_Exact) as [mrs'' e''].
  simpl in H2.
  destruct (shr_m mrs'') as [|p|p]; simpl; try reflexivity; try lia.
  destruct (e'' <=? emax - prec); reflexivity.
Qed.

Lemma binary_round_aux_canonical (s : bool) (mz : positive) (ez : Z) :
  Zpos (digits2_pos mz) = 53 -> -1074 <= ez <= 971 ->
  binary_round_aux 53 1024 s (Zpos mz) ez loc_Exact = S754_finite s mz ez.
Proof.
  intros Hd He. unfold binary_round_aux, shr_fexp, fexp, emin. simpl Zdigits2.
  rewrite Hd.
  replace (Z.max (53 + ez - 53) (3 - 1024 - 53) - ez) with 0 by lia.
  simpl. rewrite Hd.
  replace (Z.max (53 + ez - 53) (3 - 1024 - 53) - ez) with 0 by lia.
  simpl.
  replace (ez <=? 1024 - 53) with true; [reflexivity|].
  symmetry. apply Z.leb_le. lia.
Qed.

Lemma binary_round_small (s : bool) (p : positive) :
  Zpos p < 2 ^ 53 ->
  exists mz ez, binary_round 53 1024 s p 0 = S754_finite s mz ez.
Proof.
  intros Hp.
  assert (Hd : Zpos (digits2_pos p) <= 53) by (apply digits2_pos_bound; lia).
  unfold binary_round, shl_align, fexp, emin.
  replace (Z.max (Zpos (digits2_pos p) + 0 - 53) (3 - 1024 - 53) - 0)
    with (Zpos (digits2_pos p) - 53) by lia.
  destruct (Zpos (digits2_pos p) - 53) as [|k|k] eqn:Ek; try lia.
  - exists p, 0. apply binary_round_aux_canonical; lia.
  - exists (Pos.iter xO p k), (Z.max (Zpos (digits2_pos p) + 0 - 53) (3 - 1024 - 53)).
    apply binary_round_aux_canonical.
    + rewrite digits2_pos_iter_xO. lia.
    + lia.
Qed.

Lemma of_Z_small (n : Z) :
  n <> 0 -> - 2 ^ 53 < n < 2 ^ 53 ->
  exists mz ez, Float.of_Z n = S754_finite (n <? 0) mz ez.
Proof.
  intros Hn Hb. unfold Float.of_Z, binary_normalize.
  destruct n as [|p|p]; [congruence| |].
  - apply binary_round_small. lia.
  - apply binary_round_small. lia.
Qed.

Lemma binary_round_signed (prec emax : Z) (s : bool) (p : positive) (e : Z) :
  Float.signed_shape s (binary_round prec emax s p e).
Proof.
  unfold binary_round.
  destruct (shl_align p e _) as [mz ez].
  apply binary_round_aux_signed. lia.
Qed.

Lemma signed_false_nonneg (f : spec_float) :
  Float.signed_shape false f -> Float.nonneg_shape f.
Proof. destruct f; simpl; auto. Qed.

Lemma div_core_nonneg (prec emax : Z) (mx my : positive) (ex ey : Z) :
  0 <= (SFdiv_core_binary prec emax (Zpos mx) ex (Zpos my) ey).1.1.
Proof.
  unfold SFdiv_core_binary.
  set (sh := ex - ey - _).
  set (m' := match sh with Z0 => Zpos mx | Zpos _ => Z.shiftl (Zpos mx) sh | Zneg _ => 0 end).
  assert (Hm' : 0 <= m').
  { unfold m'. destruct sh; try lia. apply Z.shiftl_nonneg. lia. }
  pose proof (Z_div_mod m' (Zpos my) ltac:(lia)) as Hdiv.
  destruct (Z.div_eucl m' (Zpos my)) as [q r]. simpl.
  destruct Hdiv as [Heq Hr]. nia.
Qed.

Lemma div_finite_signed (sx sy : bool) (mx my : positive) (ex ey : Z) :
  Float.signed_shape (xorb sx sy)
    (Float.div (S754_finite sx mx ex) (S754_finite sy my ey)).
Proof.
  unfold Float.div, SFdiv.
  pose proof (div_core_nonneg Float.prec Float.emax mx my ex ey) as Hq.
  destruct (SFdiv_core_binary _ _ _ _ _ _) as [[mz ez] lz]. simpl in Hq.
  apply binary_round_aux_signed. assumption.
Qed.

Lemma div_nonneg_by_positive (x : spec_float) (my : positive) (ey : Z) :
  Float.nonneg_shape x -> Float.nonneg_shape (Float.div x (S754_finite false my ey)).
Proof.
  intros Hx. destruct x as [s|s| |s mx ex]; simpl in Hx; try contradiction.
  - exact I.
  - subst s. reflexivity.
  - subst s. apply signed_false_nonneg. apply (div_finite_signed false false).
Qed.

Lemma add_nonneg (x y : spec_float) :
  Float.nonneg_shape x -> Float.nonneg_shape y -> Float.nonneg_shape (Float.add x y).
Proof.
  intros Hx Hy.
  destruct x as [sx|sx| |sx mx ex]; destruct y as [sy|sy| |sy my ey];
    simpl in Hx, Hy; try contradiction; subst; try exact I; try reflexivity.
  - destruct sx, sy; exact I.
  - unfold Float.add, SFadd. simpl cond_Zopp.
    apply signed_false_nonneg.
    change (Float.signed_shape false
              (binary_round Float.prec Float.emax false
                 ((shl_align mx ex (Z.min ex ey)).1 + (shl_align my ey (Z.min ex ey)).1)
                 (Z.min ex ey))).
    apply binary_round_signed.
Qed.

Lemma nonneg_ge0 (f : spec_float) : Float.nonneg_shape f -> Float.ge0 f = true.
Proof.
  destruct f as [s|s| |s m e]; simpl; intros H; try contradiction; subst; reflexivity.
Qed.

Lemma neg_ge0_false (f : spec_float) :
  Float.nonneg_shape f -> Float.is_zero f = false -> Float.ge0 (Float.neg f) = false.
Proof.
  destruct f as [s|s| |s m e]; simpl; intros H Hz; try contradiction; subst;
    try discriminate; reflexivity.
Qed.

(** The quotient of an EXIF rational that is non-negative as a fraction. *)
Lemma ratio_quot_nonneg (r : Ratio) :
  exif_ratio r -> den r <> 0 -> 0 <= num r * den r -> Float.nonneg_shape (ratio_quot r).
Proof.
  intros [Hn Hd] Hden Hsign. unfold exif_int in *. unfold ratio_quot.
  destruct (of_Z_small (den r) Hden ltac:(lia)) as (md & ed & Ed).
  rewrite Ed.
  destruct (Z.eq_dec (num r) 0) as [Hz|Hnz].
  - rewrite Hz. reflexivity.
  - destruct (of_Z_small (num r) Hnz ltac:(lia)) as (mn & en & En).
    rewrite En. apply signed_false_nonneg.
    replace false with (xorb (num r <? 0) (den r <? 0)) at 1.
    + apply div_finite_signed.
    + destruct (Z.ltb_spec (num r) 0), (Z.ltb_spec (den r) 0); simpl; try reflexivity; nia.
Qed.

Lemma ratio_to_float_ok (r : Ratio) :
  exif_ratio r -> den r <> 0 -> ratio_to_float r = Ok (ratio_quot r).
Proof.
  intros [Hn Hd] Hden. unfold exif_int in *. unfold ratio_to_float, ratio_quot, Float.py_float.
  destruct (of_Z_small (den r) Hden ltac:(lia)) as (md & ed & Ed).
  assert (Hnum : exists f, Float.of_Z (num r) = f /\
                 match f with S754_infinity _ => False | _ => True end).
  { destruct (Z.eq_dec (num r) 0) as [Hz|Hnz].
    - rewrite Hz. eexists; split; [reflexivity | exact I].
    - destruct (of_Z_small (num r) Hnz ltac:(lia)) as (mn & en & En).
      rewrite En. eexists; split; [reflexivity | exact I]. }
  destruct Hnum as (f & Ef & Hf). rewrite Ef, Ed.
  destruct f; try contradiction; reflexivity.
Qed.

Lemma dms_degrees_nonneg (d m s : Ratio) :
  Float.nonneg_shape (ratio_quot d) -> Float.nonneg_shape (ratio_quot m) ->
  Float.nonneg_shape (ratio_quot s) -> Float.nonneg_shape (dms_degrees d m s).
Proof.
  intros Hd Hm Hs. unfold dms_degrees.
  apply add_nonneg; [apply add_nonneg|]; try assumption.
  - apply div_nonneg_by_positive; assumption.
  - apply div_nonneg_by_positive; assumption.
Qed.

Lemma convert_to_degrees_ok (p : string) (d m s : Ratio) :
  valid_dms d m s ->
  convert_to_degrees (mkIfdTag p (VRatios [d; m; s])) = Ok (dms_degrees d m s).
Proof.
  intros ([Hd Hd0] & [Hm Hm0] & [Hs Hs0]).
  unfold convert_to_degrees. simpl.
  rewrite (ratio_to_float_ok d Hd Hd0). simpl.
  rewrite (ratio_to_float_ok m Hm Hm0). simpl.
  rewrite (ratio_to_float_ok s Hs Hs0). simpl.
  reflexivity.
Qed.

(** ** The Coordinate Converter and the hemisphere sign *)

Lemma nonneg_dms_ge0 (d m s : Ratio) :
  valid_dms d m s -> nonneg_dms d m s -> Float.nonneg_shape (dms_degrees d m s).
Proof.
  intros ([Hd Hd0] & [Hm Hm0] & [Hs Hs0]) (Nd & Nm & Ns).
  apply dms_degrees_nonneg; apply ratio_quot_nonneg; assumption.
Qed.

(** C1. For every DMS triple of EXIF rationals with non-zero
    denominators the converter returns the binary64 value of
    [d + m/60 + s/3600]; the reader negates it exactly when the reference
    is not ["N"] (latitude) or not ["E"] (longitude); and for non-negative
    components the converted value compares [>= 0.0]. *)
Theorem converter_signed_decimal_degrees
    (tags : gmap string IfdTag) (p1 p2 : string)
    (d1 m1 s1 d2 m2 s2 : Ratio) (la_ref lo_ref : IfdTag) (rlat rlon : string) :
  valid_dms d1 m1 s1 -> valid_dms d2 m2 s2 ->
  tags !! "GPS GPSLatitude" = Some (mkIfdTag p1 (VRatios [d1; m1; s1])) ->
  tags !! "GPS GPSLatitudeRef" = Some la_ref -> values la_ref = VStr rlat ->
  tags !! "GPS GPSLongitude" = Some (mkIfdTag p2 (VRatios [d2; m2; s2])) ->
  tags !! "GPS GPSLongitudeRef" = Some lo_ref -> values lo_ref = VStr rlon ->
  convert_to_degrees (mkIfdTag p1 (VRatios [d1; m1; s1])) = Ok (dms_degrees d1 m1 s1)
  /\ convert_to_degrees (mkIfdTag p2 (VRatios [d2; m2; s2])) = Ok (dms_degrees d2 m2 s2)
  /\ gps_from_tags tags =
       Ok (Some (if String.eqb rlat "N" then dms_degrees d1 m1 s1
                 else Float.neg (dms_degrees d1 m1 s1)),
           Some (if String.eqb rlon "E" then dms_degrees d2 m2 s2
                 else Float.neg (dms_degrees d2 m2 s2)),
           printable <$> tags !! "EXIF DateTimeOriginal")
  /\ (nonneg_dms d1 m1 s1 -> Float.ge0 (dms_degrees d1 m1 s1) = true)
  /\ (nonneg_dms d2 m2 s2 -> Float.ge0 (dms_degrees d2 m2 s2) = true).
Proof.
  intros V1 V2 Hla Hlar Vlar Hlo Hlor Vlor.
  pose proof (convert_to_degrees_ok p1 d1 m1 s1 V1) as C1.
  pose proof (convert_to_degrees_ok p2 d2 m2 s2 V2) as C2.
  split; [exact C1|]. split; [exact C2|]. split; [|split].
  - unfold gps_from_tags. rewrite Hla, Hlar, Hlo, Hlor, C1, C2. simpl.
    rewrite Vlar, Vlor. simpl.
    destruct (String.eqb rlat "N"), (String.eqb rlon "E"); reflexivity.
  - intros N1. apply nonneg_ge0, nonneg_dms_ge0; assumption.
  - intros N2. apply nonneg_ge0, nonneg_dms_ge0; assumption.
Qed.

(** The round trip of the specification: 35 deg 40' 12'' N,
    139 deg 45' 30'' E is (35.670000, 139.758333) to six decimals. *)
Example tokyo_round_trip :
  let lat := S754_finite false 5020106209634549 (-47) in
  let lon := S754_finite false 4917309202515012 (-45) in
  let millionth (n : Z) := Float.div (Float.of_Z n) (Float.of_Z 1000000) in
  gps_from_tags tokyo_tags = Ok (Some lat, Some lon, Some "2024:01:02 03:04:05")
  /\ SFltb (millionth 35669999) lat = true /\ SFltb lat (millionth 35670001) = true
  /\ SFltb (millionth 139758332) lon = true /\ SFltb lon (millionth 139758334) = true.
Proof. repeat split; reflexivity. Qed.

Lemma converter_signed_decimal_degrees_witness :
  gps_from_tags tokyo_tags =
    Ok (Some (S754_finite false 5020106209634549 (-47)),
        Some (S754_finite false 4917309202515012 (-45)),
        Some "2024:01:02 03:04:05")
  /\ Float.ge0 (S754_finite false 5020106209634549 (-47)) = true.
Proof.
  assert (V1 : valid_dms (mkRatio 35 1) (mkRatio 40 1) (mkRatio 12 1)).
  { unfold valid_dms, exif_ratio, exif_int; simpl; lia. }
  assert (V2 : valid_dms (mkRatio 139 1) (mkRatio 45 1) (mkRatio 30 1)).
  { unfold valid_dms, exif_ratio, exif_int; simpl; lia. }
  destruct (converter_signed_decimal_degrees tokyo_tags "dms" "dms"
              (mkRatio 35 1) (mkRatio 40 1) (mkRatio 12 1)
              (mkRatio 139 1) (mkRatio 45 1) (mkRatio 30 1)
              (ascii_tag "N") (ascii_tag "E") "N" "E" V1 V2
              eq_refl eq_refl eq_refl eq_refl eq_refl eq_refl)
    as (_ & _ & Hg & Hn & _).
  split.
  - exact Hg.
  - apply Hn. unfold nonneg_dms; simpl; lia.
Defined.

(** ** The scratch directory *)

Lemma below_within (p q : string) : below p q = true -> within p q = true.
Proof. unfold below, within. intros ->. apply orb_true_r. Qed.

(** Clearing a directory when it exists leaves nothing in it and
    touches nothing outside it. *)
Lemma clear_dir_files (p : string) (w : world) :
  (clear_dir p w).2 = Ok tt
  /\ forall q, files (clear_dir p w).1 !! q
               = if within p q then None else files w !! q.
Proof.
  unfold clear_dir, bind, path_exists.
  destruct (negb (bool_decide (filter (fun d => within p d = true) (dirs w) = ∅))
            || negb (bool_decide (filter (fun kv : string * file => within p kv.1 = true)
                                    (files w) = ∅))) eqn:E.
  - unfold rmtree, bind, emit. simpl. split; [reflexivity|].
    intros q. destruct (within p q) eqn:Wq.
    + apply map_lookup_filter_None. right. intros x _. simpl. congruence.
    + destruct (files w !! q) as [x|] eqn:Eq.
      * apply map_lookup_filter_Some. split; [assumption|]. simpl. assumption.
      * apply map_lookup_filter_None. left. assumption.
  - simpl. split; [reflexivity|].
    intros q. destruct (within p q) eqn:Wq; [|reflexivity].
    apply orb_false_iff in E as [_ E].
    apply negb_false_iff, bool_decide_eq_true in E.
    destruct (files w !! q) as [x|] eqn:Eq; [|reflexivity].
    exfalso. eapply (map_filter_empty_not_lookup _ _ q x E); [|exact Eq]. simpl. assumption.
Qed.

Lemma normalize_heic_run (self : extractor) (path : string) (w : world)
    (b : blob) (exif : option exif_block) :
  within (jpg_path self) path = false ->
  files w !! path = Some (FBlob b) ->
  pil_open b = Ok exif ->
  (normalize_heic self path w).2 = Ok (temp_path self path)
  /\ forall q, files (normalize_heic self path w).1 !! q
               = if decide (q = temp_path self path) then Some (FBlob (saved_jpeg exif))
                 else if within (jpg_path self) q then None else files w !! q.
Proof.
  intros Hout Hfile Hopen.
  destruct (clear_dir_files (jpg_path self) w) as [Hr Hf].
  destruct (clear_dir (jpg_path self) w) as [w1 r1] eqn:Ec. simpl in Hr, Hf. subst r1.
  assert (E : exists d l,
             normalize_heic self path w
             = (mkWorld (<[ temp_path self path := FBlob (saved_jpeg exif) ]> (files w1)) d l,
                Ok (temp_path self path))).
  { unfold normalize_heic, bind. rewrite Ec.
    unfold makedirs, image_open, image_save, write_file, emit, bind, ret. simpl.
    rewrite Hf, Hout, Hfile, Hopen. simpl. eexists _, _. reflexivity. }
  destruct E as (d & l & ->). simpl.
  split; [reflexivity|].
  intros q. destruct (decide (q = temp_path self path)) as [->|Hne].
  - apply lookup_insert_eq.
  - rewrite lookup_insert_ne by congruence. apply Hf.
Qed.

Lemma get_gps_info_plain (self : extractor) (path : string) (w : world) :
  endswith (lower path) ".heic" = false ->
  get_gps_info self path w
  = (mkWorld (files w) (dirs w) (log w ++ [EvOpenRead path]),
     rbind (tags_of_file w path) gps_from_tags).
Proof.
  intros Hext. unfold get_gps_info. rewrite Hext.
  unfold bind, ret, open_exifread, emit, lift, bind. simpl.
  unfold tags_of_file. simpl.
  destruct (files w !! path) as [[b| |]|]; simpl; try reflexivity.
  destruct (exif_read b); reflexivity.
Qed.

Lemma get_gps_info_heic (self : extractor) (path : string) (w : world)
    (b : blob) (exif : option exif_block) :
  endswith (lower path) ".heic" = true ->
  within (jpg_path self) path = false ->
  files w !! path = Some (FBlob b) ->
  pil_open b = Ok exif ->
  (get_gps_info self path w).2 = rbind (exif_read (saved_jpeg exif)) gps_from_tags
  /\ forall q, files (get_gps_info self path w).1 !! q
               = if decide (q = temp_path self path) then Some (FBlob (saved_jpeg exif))
                 else if within (jpg_path self) q then None else files w !! q.
Proof.
  intros Hext Hout Hfile Hopen.
  destruct (normalize_heic_run self path w b exif Hout Hfile Hopen) as [Hr Hf].
  destruct (normalize_heic self path w) as [w1 r1] eqn:En. simpl in Hr, Hf. subst r1.
  pose proof (Hf (temp_path self path)) as Ht.
  rewrite decide_True in Ht by reflexivity.
  assert (E : exists l,
             get_gps_info self path w
             = (mkWorld (files w1) (dirs w1) l,
                rbind (exif_read (saved_jpeg exif)) gps_from_tags)).
  { unfold get_gps_info. rewrite Hext. unfold bind at 1. rewrite En.
    unfold bind, open_exifread, emit, lift, bind, tags_of_file. simpl.
    rewrite Ht.
    destruct (exif_read (saved_jpeg exif)); simpl; eexists; reflexivity. }
  destruct E as (l & ->). simpl. split; [reflexivity | exact Hf].
Qed.



(** C8, as the code has it. The scratch directory is cleared and
    recreated for every HEIC file: after a file is normalized the
    directory holds that file's transcoded copy and nothing else. *)
Theorem scratch_holds_only_latest
    (self : extractor) (path : string) (w : world) (b : blob) (exif : option exif_block) :
  endswith (lower path) ".heic" = true ->
  within (jpg_path self) path = false ->
  files w !! path = Some (FBlob b) ->
  pil_open b = Ok exif ->
  forall q, below (jpg_path self) q = true ->
    files (get_gps_info self path w).1 !! q
    = if decide (q = temp_path self path) then Some (FBlob (saved_jpeg exif)) else None.
Proof.
  intros Hext Hout Hfile Hopen q Hq.
  destruct (get_gps_info_heic self path w b exif Hext Hout Hfile Hopen) as [_ Hf].
  rewrite Hf. rewrite (below_within _ _ Hq). reflexivity.
Qed.

Lemma scratch_holds_only_latest_witness :
  files (get_gps_info gradio_extractor "output/unzip/b.heic"
           (get_gps_info gradio_extractor "output/unzip/a.heic" two_heic).1).1
    !! "output/jpg/a.jpg" = None.
Proof.
  apply (scratch_holds_only_latest gradio_extractor "output/unzip/b.heic"
           (get_gps_info gradio_extractor "output/unzip/a.heic" two_heic).1
           (heic_file (Some (Ok tokyo_tags))) (Some (Ok tokyo_tags))
           eq_refl eq_refl eq_refl eq_refl "output/jpg/a.jpg" eq_refl).
Defined.

(** C8, as stated, fails: normalizing [b.heic] after [a.heic] removes the
    transcoded copy of [a.heic], and the scratch directory is cleared in
    the middle of the run. *)
Lemma later_heic_removes_earlier_output :
  let w1 := (get_gps_info gradio_extractor "output/unzip/a.heic" two_heic).1 in
  let w2 := (get_gps_info gradio_extractor "output/unzip/b.heic" w1).1 in
  files w1 !! "output/jpg/a.jpg" = Some (FBlob (saved_jpeg (Some (Ok tokyo_tags))))
  /\ files w2 !! "output/jpg/a.jpg" = None
  /\ log w2 = [EvMakedirs "output/jpg"; EvImageOpen "output/unzip/a.heic";
               EvImageSave "output/jpg/a.jpg" true; EvOpenRead "output/jpg/a.jpg";
               EvRmtree "output/jpg"; EvMakedirs "output/jpg";
               EvImageOpen "output/unzip/b.heic";
               EvImageSave "output/jpg/b.jpg" true; EvOpenRead "output/jpg/b.jpg"].
Proof. vm_compute. repeat split. Qed.

(** ** Both coordinates or neither *)

Lemma gps_from_tags_together (tags : gmap string IfdTag)
    (lat lon : option spec_float) (dt : option string) :
  gps_from_tags tags = Ok (lat, lon, dt) ->
  (lat = None <-> lon = None)
  /\ (is_Some lat <-> four_gps_tags tags)
  /\ (is_Some lon <-> four_gps_tags tags).
Proof.
  unfold gps_from_tags, four_gps_tags.
  destruct (tags !! "GPS GPSLatitude") as [la|];
    destruct (tags !! "GPS GPSLatitudeRef") as [lar|];
    destruct (tags !! "GPS GPSLongitude") as [lo|];
    destruct (tags !! "GPS GPSLongitudeRef") as [lor|]; simpl;
    try (intros [= <- <- <-]; repeat split; intros; try done;
         repeat match goal with
                | H : _ /\ _ |- _ => destruct H
                | H : is_Some None |- _ => destruct H; discriminate
                end).
  destruct (convert_to_degrees la) as [x|]; simpl; [|discriminate].
  destruct (convert_to_degrees lo) as [y|]; simpl; [|discriminate].
  intros [= <- <- <-]. repeat split; intros; try done; eauto.
Qed.

Lemma normalize_heic_path (self : extractor) (path : string) (w w1 : world) (p : string) :
  normalize_heic self path w = (w1, Ok p) -> p = temp_path self path.
Proof.
  unfold normalize_heic, bind.
  destruct (clear_dir (jpg_path self) w) as [w0 [[]|e]]; [|discriminate].
  unfold makedirs, image_open, image_save, write_file, emit, bind, ret. simpl.
  destruct (files w0 !! path) as [[b| |]|]; simpl; try discriminate.
  destruct (pil_open b); simpl; [|discriminate].
  intros [= _ <-]. reflexivity.
Qed.

Lemma get_gps_info_inv (self : extractor) (path : string) (w w' : world) (t : gps_triple) :
  get_gps_info self path w = (w', Ok t) ->
  exists tags, tags_of_file w' (read_path self path) = Ok tags /\ gps_from_tags tags = Ok t.
Proof.
  unfold get_gps_info, read_path.
  destruct (endswith (lower path) ".heic").
  - unfold bind at 1.
    destruct (normalize_heic self path w) as [w1 [p|e]] eqn:En; [|discriminate].
    apply normalize_heic_path in En. subst p.
    unfold bind, open_exifread, emit, lift, bind. simpl.
    change (tags_of_file (mkWorld (files w1) (dirs w1) (log w1 ++ [EvOpenRead (temp_path self path)]))
              (temp_path self path))
      with (tags_of_file w1 (temp_path self path)).
    destruct (tags_of_file w1 (temp_path self path)) as [tags|e] eqn:Et; simpl; [|discriminate].
    intros [= <- Hg]. exists tags. split; [exact Et | exact Hg].
  - unfold bind, ret, open_exifread, emit, lift, bind. simpl.
    change (tags_of_file (mkWorld (files w) (dirs w) (log w ++ [EvOpenRead path])) path)
      with (tags_of_file w path).
    destruct (tags_of_file w path) as [tags|e] eqn:Et; simpl; [|discriminate].
    intros [= <- Hg]. exists tags. split; [exact Et | exact Hg].
Qed.

(** C10. Whenever the Metadata Reader returns a triple, latitude is
    absent exactly when longitude is; both are present exactly when the
    four GPS tags are in the dictionary exifread returned. *)
Theorem reader_coordinates_together
    (self : extractor) (path : string) (w w' : world)
    (lat lon : option spec_float) (dt : option string) :
  get_gps_info self path w = (w', Ok (lat, lon, dt)) ->
  (lat = None <-> lon = None)
  /\ exists tags, tags_of_file w' (read_path self path) = Ok tags
       /\ (is_Some lat <-> four_gps_tags tags)
       /\ (is_Some lon <-> four_gps_tags tags).
Proof.
  intros H. apply get_gps_info_inv in H as (tags & Ht & Hg).
  apply gps_from_tags_together in Hg as (Hiff & Hla & Hlo).
  split; [exact Hiff|]. exists tags. auto.
Qed.

Lemma reader_coordinates_together_witness :
  (Some (S754_finite false 5020106209634549 (-47)) = None
   <-> Some (S754_finite false 4917309202515012 (-45)) = None)
  /\ exists tags,
       tags_of_file (get_gps_info gradio_extractor "output/unzip/a.jpg"
                       (staged [("output/unzip/a.jpg", jpeg_file tokyo_tags)])).1
         (read_path gradio_extractor "output/unzip/a.jpg") = Ok tags
       /\ (is_Some (Some (S754_finite false 5020106209634549 (-47))) <-> four_gps_tags tags)
       /\ (is_Some (Some (S754_finite false 4917309202515012 (-45))) <-> four_gps_tags tags).
Proof.
  apply (reader_coordinates_together gradio_extractor "output/unzip/a.jpg"
           (staged [("output/unzip/a.jpg", jpeg_file tokyo_tags)]) _ _ _
           (Some "2024:01:02 03:04:05")).
  reflexivity.
Defined.

(** ** The Directory Scanner *)

Lemma scan_files_app (self : extractor) (l1 l2 : list (string * string)) :
  forall (data : list record) (w : world),
    scan_files self (l1 ++ l2) data w
    = match scan_files self l1 data w with
      | (w', Ok d) => scan_files self l2 d w'
      | (w', Raise e) => (w', Raise e)
      end.
Proof.
  induction l1 as [|[root file] l1 IH]; intros data w.
  - reflexivity.
  - simpl. destruct (supported_ext file); [|apply IH].
    unfold bind.
    destruct (get_gps_info self (path_join root file) w) as [w1 [[[lat lon] dt]|e]];
      [|reflexivity].
    destruct (coord_truthy lat && coord_truthy lon); [|apply IH].
    destruct lat as [lat|], lon as [lon|]; apply IH.
Qed.

(** C3, as the code has it. The scanner has no handler: when the reader
    fails on a supported file, the scan stops there with the reader's
    error and no batch is returned. *)
Theorem scan_aborts_on_reader_failure
    (self : extractor) (folder : string) (w w0 w1 w2 : world)
    (pre post : list (string * string)) (root file : string)
    (d1 : list record) (e : exn) :
  os_walk folder w = (w0, Ok (pre ++ (root, file) :: post)) ->
  scan_files self pre [] w0 = (w1, Ok d1) ->
  supported_ext file = true ->
  get_gps_info self (path_join root file) w1 = (w2, Raise e) ->
  extract_gps_from_images self folder w = (w2, Raise e).
Proof.
  intros Hwalk Hpre Hext Hfail.
  unfold extract_gps_from_images, bind. rewrite Hwalk.
  rewrite scan_files_app. rewrite Hpre.
  simpl. rewrite Hext. unfold bind. rewrite Hfail. reflexivity.
Qed.

Lemma scan_aborts_on_reader_failure_witness :
  extract_gps_from_images gradio_extractor "output/unzip" one_bad_file
  = ((get_gps_info gradio_extractor "output/unzip/bad.heic"
        (scan_files gradio_extractor [("output/unzip", "good.jpg")] []
           (os_walk "output/unzip" one_bad_file).1).1).1,
     Raise (UnidentifiedImageError "cannot identify image file")).
Proof.
  apply (scan_aborts_on_reader_failure gradio_extractor "output/unzip" one_bad_file
           (os_walk "output/unzip" one_bad_file).1
           (scan_files gradio_extractor [("output/unzip", "good.jpg")] []
              (os_walk "output/unzip" one_bad_file).1).1
           _ [("output/unzip", "good.jpg")] [] "output/unzip" "bad.heic"
           [good_record] (UnidentifiedImageError "cannot identify image file"));
    reflexivity.
Defined.

(** C3, as stated, fails: one corrupt file aborts the scan, and the
    record of the readable file is lost with it. *)
Lemma corrupt_file_aborts_scan :
  (extract_gps_from_images gradio_extractor "output/unzip" one_bad_file).2
  = Raise (UnidentifiedImageError "cannot identify image file")
  /\ (extract_gps_from_images gradio_extractor "output/unzip"
        (staged [("output/unzip/good.jpg", jpeg_file tokyo_tags)])).2
     = Ok [good_record].
Proof. split; reflexivity. Qed.

(** C2 at the failing input. The reader resolves both coordinates of an
    image taken on the equator, latitude [0.0]; the scanner's truthiness
    test drops it, and the batch is empty. *)
Theorem equator_image_dropped :
  (get_gps_info gradio_extractor "output/unzip/eq.jpg" equator_dir).2
  = Ok (Some (S754_zero false), Some (S754_finite false 4917309202515012 (-45)),
        Some "2024:01:02 03:04:05")
  /\ (extract_gps_from_images gradio_extractor "output/unzip" equator_dir).2 = Ok [].
Proof. split; reflexivity. Qed.

(** ** Effects: what reaches the log *)







Lemma quiet_try_except {A} (m : M A) (h : exn -> M A) :
  quiet m -> (forall e, quiet (h e)) -> quiet (try_except m h).
Proof.
  intros Hm Hh w. unfold try_except.
  destruct (Hm w) as (l1 & E1 & N1).
  destruct (m w) as [w1 [a|e]]; simpl in E1.
  - exists l1. split; assumption.
  - destruct (Hh e w1) as (l2 & E2 & N2).
    exists (l1 ++ l2). split.
    + rewrite E2, E1. symmetry. apply app_assoc.
    + apply Forall_app. split; assumption.
Qed.











(** ** Frame: what a read leaves untouched *)

Lemma prefix_append_same (p a rest : string) :
  String.prefix (String.append p a) (String.append p (String.append a rest)) = true.
Proof.
  induction p as [|c p IH].
  - change (String.prefix a (String.append a rest) = true).
    induction a as [|c a IHa]; [destruct rest; reflexivity|].
    change (String.prefix (String c a) (String c (String.append a rest)) = true).
    simpl. destruct (ascii_dec c c); [exact IHa | congruence].
  - change (String.prefix (String c (String.append p a))
              (String c (String.append p (String.append a rest))) = true).
    simpl. destruct (ascii_dec c c); [exact IH | congruence].
Qed.

Lemma within_temp_path (self : extractor) (path : string) :
  within (jpg_path self) (temp_path self path) = true.
Proof.
  unfold within, temp_path. rewrite prefix_append_same. apply orb_true_r.
Qed.

Lemma normalize_heic_frame (self : extractor) (path : string) (w : world) (q : string) :
  within (jpg_path self) q = false ->
  files (normalize_heic self path w).1 !! q = files w !! q.
Proof.
  intros Hq.
  destruct (clear_dir_files (jpg_path self) w) as [Hr Hf].
  specialize (Hf q). rewrite Hq in Hf.
  unfold normalize_heic, bind.
  destruct (clear_dir (jpg_path self) w) as [w1 r1]. simpl in Hr, Hf. subst r1.
  unfold makedirs, image_open, image_save, write_file, emit, bind, ret. simpl.
  destruct (files w1 !! path) as [[b| |]|]; simpl; try exact Hf.
  destruct (pil_open b) as [exif|e]; simpl; [|exact Hf].
  rewrite lookup_insert_ne; [exact Hf|].
  intros <-. rewrite within_temp_path in Hq. discriminate.
Qed.

Lemma get_gps_info_frame (self : extractor) (path : string) (w : world) (q : string) :
  within (jpg_path self) q = false ->
  files (get_gps_info self path w).1 !! q = files w !! q.
Proof.
  intros Hq. unfold get_gps_info.
  destruct (endswith (lower path) ".heic").
  - pose proof (normalize_heic_frame self path w q Hq) as Hn.
    unfold bind at 1.
    destruct (normalize_heic self path w) as [w1 [p|e]]; simpl in Hn; [|exact Hn].
    unfold bind, open_exifread, emit, lift, bind. simpl.
    destruct (tags_of_file _ p); simpl; exact Hn.
  - unfold bind, ret, open_exifread, emit, lift, bind. simpl.
    destruct (tags_of_file _ path); reflexivity.
Qed.



(** ** The drivers *)

(** C6. A missing input, or a name that does not end in [.zip] (compared
    in lower case), makes [process_zip] raise [ValueError] at once: the
    world, its log included, is unchanged. *)
Theorem invalid_input_rejected
    (strptime : string -> option Timestamp) (argsort : list Z -> list nat)
    (zip_file : option string) (w : world) :
  (forall p, zip_file = Some p -> endswith (lower p) ".zip" = false) ->
  exists msg, process_zip strptime argsort zip_file w = (w, Raise (ValueError msg)).
Proof.
  intros H. destruct zip_file as [p|].
  - exists msg_zip_only. unfold process_zip. rewrite (H p eq_refl). reflexivity.
  - exists msg_upload. reflexivity.
Qed.

Lemma invalid_input_rejected_witness :
  exists msg,
    process_zip strptime_exif argsort_stable (Some "photos.tar") no_gps_archive
    = (no_gps_archive, Raise (ValueError msg)).
Proof.
  apply (invalid_input_rejected strptime_exif argsort_stable (Some "photos.tar") no_gps_archive).
  intros p [= <-]. reflexivity.
Defined.

(** The Streamlit script does nothing at all without an upload or with a
    blank student number. *)
Lemma streamlit_guard_skips
    (strptime : string -> option Timestamp) (argsort : list Z -> list nat)
    (uid : string) (uploaded_file : option file) (w : world) :
  uploaded_file = None \/ strip_truthy uid = false ->
  streamlit_app strptime argsort uid uploaded_file w = (w, Ok tt).
Proof.
  intros [-> | H]; [reflexivity|].
  unfold streamlit_app. rewrite H. destruct uploaded_file; reflexivity.
Qed.





(** The Streamlit script is where a reader failure ends up: the handler
    around the whole run reports it, and nothing is exported. *)
Example streamlit_reports_reader_failure :
  log (streamlit_app strptime_exif argsort_stable "s1234567"
         (Some (FZip [("bad.heic", corrupt_file); ("good.jpg", jpeg_file tokyo_tags)]))
         (staged [])).1
  = [EvMakedirs "output/unzip"; EvRmtree "output/unzip"; EvMakedirs "output/unzip";
     EvExtractAll "output/unzip"; EvWalk "output/unzip";
     EvOpenRead "output/unzip/good.jpg";
     EvMakedirs "output/jpg"; EvImageOpen "output/unzip/bad.heic";
     EvStError (UnidentifiedImageError "cannot identify image file")].
Proof. reflexivity. Qed.

(** ** Sorting the frame *)

Section Indexing.
Context {A : Type}.

(** Taking the rows at the positions a filter keeps is filtering the rows. *)
Lemma take_filtered_positions (Q : option A -> Prop) `{!forall o, Decision (Q o)}
    (l : list A) :
  forall pre : list A,
    omap (fun i : nat => (pre ++ l) !! i)
         (filter (fun i : nat => Q ((pre ++ l) !! i)) (seq (length pre) (length l)))
    = filter (fun x => Q (Some x)) l.
Proof.
  induction l as [|x l IH]; intros pre; [reflexivity|].
  specialize (IH (pre ++ [x])).
  rewrite <- (app_assoc pre [x] l) in IH. simpl in IH.
  rewrite length_app in IH. simpl in IH.
  replace (length pre + 1)%nat with (S (length pre)) in IH by lia.
  simpl length. simpl seq.
  rewrite !filter_cons.
  rewrite (list_lookup_middle pre l x (length pre) eq_refl).
  destruct (decide (Q (Some x))).
  - simpl. rewrite (list_lookup_middle pre l x (length pre) eq_refl).
    f_equal. exact IH.
  - exact IH.
Qed.

Lemma take_all_positions (l : list A) :
  forall pre : list A,
    omap (fun i : nat => (pre ++ l) !! i) (seq (length pre) (length l)) = l.
Proof.
  induction l as [|x l IH]; intros pre; [reflexivity|].
  specialize (IH (pre ++ [x])).
  rewrite <- (app_assoc pre [x] l) in IH. simpl in IH.
  rewrite length_app in IH. simpl in IH.
  replace (length pre + 1)%nat with (S (length pre)) in IH by lia.
  simpl. rewrite (list_lookup_middle pre l x (length pre) eq_refl).
  f_equal. exact IH.
Qed.

(** Where [f] is defined on every element, [omap f] lists its values. *)
Lemma fmap_Some_omap {B} (f : A -> option B) (l : list A) :
  Forall (fun x => is_Some (f x)) l -> f <$> l = Some <$> omap f l.
Proof.
  induction 1 as [|x l [y Hy] _ IH]; [reflexivity|].
  simpl. rewrite Hy. simpl. f_equal. exact IH.
Qed.

Lemma lookup_via_omap {B} (f : A -> option B) (l : list A) (j : nat) (x : A) :
  Forall (fun x => is_Some (f x)) l -> l !! j = Some x -> omap f l !! j = f x.
Proof.
  intros Hall Hj.
  pose proof (fmap_Some_omap f l Hall) as E.
  apply (f_equal (fun l' => l' !! j)) in E.
  rewrite !list_lookup_fmap, Hj in E. simpl in E.
  destruct (omap f l !! j) as [y|]; simpl in E; congruence.
Qed.

Lemma length_omap_total {B} (f : A -> option B) (l : list A) :
  Forall (fun x => is_Some (f x)) l -> length (omap f l) = length l.
Proof.
  intros Hall. pose proof (fmap_Some_omap f l Hall) as E.
  apply (f_equal length) in E. rewrite !length_fmap in E. lia.
Qed.

End Indexing.

Lemma omap_id_fmap {A B} (f : A -> option B) (l : list A) :
  omap id (f <$> l) = omap f l.
Proof.
  induction l as [|x l IH]; [reflexivity|].
  rewrite fmap_cons. simpl. unfold omap in IH. rewrite IH. reflexivity.
Qed.

Lemma omap_filter_keyed {A B} (f : A -> option B) (l : list A) :
  omap f (filter (fun x => is_Some (f x)) l) = omap f l.
Proof.
  induction l as [|x l IH]; [reflexivity|].
  rewrite filter_cons. destruct (decide (is_Some (f x))) as [[y Hy]|Hn].
  - simpl. rewrite Hy. f_equal. exact IH.
  - simpl. destruct (f x) as [y|] eqn:E; [exfalso; apply Hn; eauto|]. exact IH.
Qed.

(** The rows with a sort key, and those without, in frame order. *)
Lemma valid_positions (df : list df_row) :
  omap (fun i : nat => df !! i)
       (filter (fun i : nat =>
                  match (row_key <$> df) !! i with Some (Some _) => false | _ => true end = false)
               (seq 0 (length (row_key <$> df))))
  = filter (fun r => is_nat_row r = false) df.
Proof.
  rewrite length_fmap.
  rewrite (list_filter_iff _
             (fun i : nat =>
                match row_key <$> (df !! i) with Some (Some _) => false | _ => true end = false)).
  - exact (take_filtered_positions
             (fun o : option df_row =>
                match row_key <$> o with Some (Some _) => false | _ => true end = false)
             df []).
  - intros i. rewrite list_lookup_fmap. reflexivity.
Qed.

Lemma null_positions (df : list df_row) :
  omap (fun i : nat => df !! i)
       (filter (fun i : nat =>
                  match (row_key <$> df) !! i with Some (Some _) => false | _ => true end = true)
               (seq 0 (length (row_key <$> df))))
  = filter (fun r => is_nat_row r = true) df.
Proof.
  rewrite length_fmap.
  rewrite (list_filter_iff _
             (fun i : nat =>
                match row_key <$> (df !! i) with Some (Some _) => false | _ => true end = true)).
  - exact (take_filtered_positions
             (fun o : option df_row =>
                match row_key <$> o with Some (Some _) => false | _ => true end = true)
             df []).
  - intros i. rewrite list_lookup_fmap. reflexivity.
Qed.

Lemma valid_rows_keyed (df : list df_row) :
  Forall (fun r => is_Some (row_key r)) (filter (fun r => is_nat_row r = false) df).
Proof.
  apply Forall_forall. intros r Hr. apply list_elem_of_filter in Hr as [Hr _].
  unfold is_nat_row in Hr. destruct (row_key r); [eauto | discriminate].
Qed.

Lemma valid_rows_keys (df : list df_row) :
  omap row_key (filter (fun r => is_nat_row r = false) df) = omap row_key df.
Proof.
  induction df as [|r df IH]; [reflexivity|].
  rewrite filter_cons.
  destruct (decide (is_nat_row r = false)) as [Hk|Hk]; unfold is_nat_row in Hk.
  - simpl. destruct (row_key r) as [k|]; [|discriminate].
    f_equal. exact IH.
  - simpl. destruct (row_key r) as [k|]; [congruence|]. exact IH.
Qed.

Lemma valid_positions_in_frame (df : list df_row) :
  Forall (fun i : nat => is_Some (df !! i))
    (filter (fun i : nat =>
               match (row_key <$> df) !! i with Some (Some _) => false | _ => true end = false)
            (seq 0 (length (row_key <$> df)))).
Proof.
  apply Forall_forall. intros i Hi. apply list_elem_of_filter in Hi as [_ Hi].
  apply elem_of_seq in Hi. rewrite length_fmap in Hi.
  apply lookup_lt_is_Some. lia.
Qed.

Section Sorting.
Variable argsort : list Z -> list nat.
Hypothesis argsort_ok : argsort_spec argsort.

Lemma argsort_in_range (keys : list Z) :
  Forall (fun j : nat => (j < length keys)%nat) (argsort keys).
Proof.
  apply Forall_forall. intros j Hj.
  destruct (argsort_ok keys) as [Hperm _].
  rewrite Hperm in Hj. apply elem_of_seq in Hj. lia.
Qed.

(** [sort_values] lists the keyed rows in the order [argsort] gives
    their keys, then the rows without a key in frame order. *)
Lemma sort_values_split (df : list df_row) :
  sort_values argsort df
  = omap (fun j : nat => filter (fun r => is_nat_row r = false) df !! j)
         (argsort (omap row_key df))
    ++ filter (fun r => is_nat_row r = true) df.
Proof.
  unfold sort_values, nargsort.
  rewrite omap_app, null_positions. f_equal.
  rewrite omap_id_fmap.
  set (nni := filter _ (seq 0 (length (row_key <$> df)))).
  set (V := filter (fun r => is_nat_row r = false) df).
  assert (HV : omap (fun i : nat => df !! i) nni = V) by apply valid_positions.
  assert (Hin : Forall (fun i : nat => is_Some (df !! i)) nni)
    by apply valid_positions_in_frame.
  assert (Hlen : length nni = length (omap row_key df)).
  { rewrite <- (length_omap_total _ nni Hin), HV.
    rewrite <- (valid_rows_keys df).
    symmetry. apply length_omap_total, valid_rows_keyed. }
  pose proof (argsort_in_range (omap row_key df)) as Hrange.
  induction Hrange as [|j perm Hj _ IH]; [reflexivity|].
  rewrite fmap_cons. simpl. unfold omap in IH. rewrite IH.
  destruct (lookup_lt_is_Some_2 nni j ltac:(lia)) as [i Hi].
  rewrite (nth_lookup_Some _ _ _ i Hi).
  pose proof (lookup_via_omap (fun i : nat => df !! i) nni j i Hin Hi) as E.
  rewrite HV in E. rewrite E. reflexivity.
Qed.

End Sorting.

(** ** Insertion sort orders the keys *)

Section InsertionSort.
Variable tie : nat -> nat -> bool.
Hypothesis tie_total : forall i j, tie i j = false -> tie j i = true.

Lemma pair_leb_total (a b : Z * nat) :
  pair_leb tie a b = false -> pair_leb tie b a = true.
Proof.
  unfold pair_leb. intros H.
  apply orb_false_iff in H as [Hlt H].
  apply Z.ltb_ge in Hlt.
  destruct (Z.eqb_spec a.1 b.1) as [Heq|Hne]; simpl in H.
  - rewrite (tie_total _ _ H). rewrite Heq, Z.eqb_refl. apply orb_true_r.
  - apply orb_true_iff. left. apply Z.ltb_lt. lia.
Qed.

Lemma pair_leb_key (a b : Z * nat) : pair_leb tie a b = true -> a.1 <= b.1.
Proof.
  unfold pair_leb. intros H. apply orb_true_iff in H as [H|H].
  - apply Z.ltb_lt in H. lia.
  - apply andb_true_iff in H as [H _]. apply Z.eqb_eq in H. lia.
Qed.

Lemma insert_by_perm (x : Z * nat) (l : list (Z * nat)) :
  Permutation (insert_by (pair_leb tie) x l) (x :: l).
Proof.
  induction l as [|y l IH]; simpl; [reflexivity|].
  destruct (pair_leb tie x y); [reflexivity|].
  rewrite IH. apply perm_swap.
Qed.

Lemma isort_by_perm (l : list (Z * nat)) : Permutation (isort_by (pair_leb tie) l) l.
Proof.
  induction l as [|x l IH]; simpl; [reflexivity|].
  rewrite insert_by_perm, IH. reflexivity.
Qed.

Lemma insert_by_sorted (x : Z * nat) (l : list (Z * nat)) :
  Sorted (fun a b => pair_leb tie a b = true) l ->
  Sorted (fun a b => pair_leb tie a b = true) (insert_by (pair_leb tie) x l).
Proof.
  induction l as [|y l IH]; intros Hs; simpl.
  - repeat constructor.
  - destruct (pair_leb tie x y) eqn:E.
    + constructor; [exact Hs | constructor; exact E].
    + apply Sorted_inv in Hs as [Hs Hhd].
      constructor; [apply IH; exact Hs|].
      destruct l as [|z l]; simpl.
      * constructor. apply pair_leb_total. exact E.
      * destruct (pair_leb tie x z).
        -- constructor. apply pair_leb_total. exact E.
        -- constructor. inversion Hhd; assumption.
Qed.

Lemma isort_by_sorted (l : list (Z * nat)) :
  Sorted (fun a b => pair_leb tie a b = true) (isort_by (pair_leb tie) l).
Proof.
  induction l as [|x l IH]; simpl; [constructor|].
  apply insert_by_sorted. exact IH.
Qed.

Lemma sorted_keys (l : list (Z * nat)) :
  Sorted (fun a b => pair_leb tie a b = true) l -> Sorted Z.le (fst <$> l).
Proof.
  induction 1 as [|x l Hs IH Hhd]; simpl; [constructor|].
  constructor; [exact IH|].
  destruct Hhd as [|y l Hxy]; simpl; constructor.
  apply pair_leb_key. exact Hxy.
Qed.

Lemma zip_positions (keys : list Z) :
  forall k : nat,
    Forall (fun p : Z * nat => (k <= p.2)%nat /\ keys !! (p.2 - k)%nat = Some p.1)
      (zip keys (seq k (length keys))).
Proof.
  induction keys as [|x keys IH]; intros k; simpl; constructor.
  - simpl. split; [lia|]. replace (k - k)%nat with O by lia. reflexivity.
  - eapply Forall_impl; [apply (IH (S k))|].
    intros [y j] [Hle Hj]. simpl in *. split; [lia|].
    replace (j - k)%nat with (S (j - S k)) by lia. exact Hj.
Qed.

Lemma argsort_by_spec : argsort_spec (argsort_by tie).
Proof.
  intros keys. unfold argsort_by.
  pose proof (isort_by_perm (zip keys (seq 0 (length keys)))) as Hperm.
  split.
  - rewrite Hperm. rewrite snd_zip; [reflexivity|]. rewrite length_seq. lia.
  - assert (Hkeys : (fun i : nat => nth i keys 0)
                      <$> (snd <$> isort_by (pair_leb tie) (zip keys (seq 0 (length keys))))
                    = fst <$> isort_by (pair_leb tie) (zip keys (seq 0 (length keys)))).
    { assert (Hall : Forall (fun p : Z * nat => keys !! p.2 = Some p.1)
                       (isort_by (pair_leb tie) (zip keys (seq 0 (length keys))))).
      { rewrite Hperm. eapply Forall_impl; [apply (zip_positions keys O)|].
        intros [y j] [_ Hj]. simpl in *. replace (j - 0)%nat with j in Hj by lia. exact Hj. }
      clear Hperm.
      induction Hall as [|[y j] l Hj _ IH]; [reflexivity|].
      rewrite !fmap_cons. simpl in Hj. simpl snd. simpl fst.
      rewrite (nth_lookup_Some _ _ _ _ Hj). f_equal. exact IH. }
    rewrite Hkeys. apply sorted_keys, isort_by_sorted.
Qed.

End InsertionSort.

Lemma argsort_stable_spec : argsort_spec argsort_stable.
Proof.
  apply argsort_by_spec. intros i j H.
  apply Nat.leb_gt in H. apply Nat.leb_le. lia.
Qed.

Lemma argsort_reversing_spec : argsort_spec argsort_reversing.
Proof.
  apply argsort_by_spec. intros i j H.
  apply Nat.leb_gt in H. apply Nat.leb_le. lia.
Qed.

(** ** The Export Builder's row order *)

Lemma sorted_part_keys (argsort : list Z -> list nat) (df : list df_row) :
  argsort_spec argsort ->
  omap row_key
    (omap (fun j : nat => filter (fun r => is_nat_row r = false) df !! j)
          (argsort (omap row_key df)))
  = (fun i : nat => nth i (omap row_key df) 0) <$> argsort (omap row_key df).
Proof.
  intros Hspec.
  pose proof (argsort_in_range argsort Hspec (omap row_key df)) as Hrange.
  set (V := filter (fun r => is_nat_row r = false) df).
  assert (HV : omap row_key V = omap row_key df) by apply valid_rows_keys.
  assert (Hkeyed : Forall (fun r => is_Some (row_key r)) V) by apply valid_rows_keyed.
  assert (Hlen : length V = length (omap row_key df)).
  { rewrite <- HV. symmetry. apply length_omap_total. exact Hkeyed. }
  induction Hrange as [|j perm Hj _ IH]; [reflexivity|].
  rewrite fmap_cons. simpl omap at 2.
  destruct (lookup_lt_is_Some_2 V j ltac:(lia)) as [r Hr]. rewrite Hr.
  pose proof (lookup_via_omap row_key V j r Hkeyed Hr) as E. rewrite HV in E.
  destruct (proj1 (Forall_forall _ _) Hkeyed r ltac:(eapply list_elem_of_lookup_2; exact Hr))
    as [k Hk].
  rewrite Hk in E. simpl. rewrite Hk.
  rewrite (nth_lookup_Some _ _ _ _ E). f_equal. exact IH.
Qed.

(** C4, as the code has it. The written rows are the batch reordered:
    first the rows whose timestamp parsed, by ascending timestamp; then
    the rows without a timestamp (absent or unparsable), in batch order.
    Rows with equal timestamps come in the order [argsort] leaves them. *)
Theorem export_rows_sorted_nulls_last
    (strptime : string -> option Timestamp) (argsort : list Z -> list nat)
    (data : list record) :
  argsort_spec argsort ->
  data <> [] ->
  let df := data_frame strptime data in
  let out := sort_values argsort df in
  rows (export_table strptime argsort data)
  = csv_row (existsb (fun r => bool_decide (is_Some (UserID r))) data)
            (is_dates_only (snd <$> out)) <$> out
  /\ Permutation out df
  /\ exists dated : list df_row,
       out = dated ++ filter (fun r => is_nat_row r = true) df
       /\ Forall (fun r => is_Some (row_key r)) dated
       /\ Sorted Z.le (omap row_key dated)
       /\ filter (fun r => row_key r = None) out = filter (fun r => row_key r = None) df.
Proof.
  intros Hspec _ df out.
  pose proof (sort_values_split argsort Hspec df) as Hsplit.
  fold out in Hsplit.
  set (V := filter (fun r => is_nat_row r = false) df) in *.
  set (N := filter (fun r => is_nat_row r = true) df) in *.
  set (dated := omap (fun j : nat => V !! j) (argsort (omap row_key df))) in *.
  assert (Hperm : Permutation dated V).
  { unfold dated. destruct (Hspec (omap row_key df)) as [Hp _]. rewrite Hp.
    assert (Hlen : length (omap row_key df) = length V).
    { unfold V. rewrite <- (valid_rows_keys df).
      apply length_omap_total, valid_rows_keyed. }
    rewrite Hlen. pose proof (take_all_positions V []) as Hall.
    simpl in Hall. rewrite Hall. reflexivity. }
  assert (Hkeyed : Forall (fun r => is_Some (row_key r)) dated).
  { rewrite Hperm. apply valid_rows_keyed. }
  assert (Hnull : forall l : list df_row,
             filter (fun r => row_key r = None) l = filter (fun r => is_nat_row r = true) l).
  { intros l. apply list_filter_iff. intros r. unfold is_nat_row.
    destruct (row_key r); split; congruence. }
  split; [reflexivity|]. split.
  - rewrite Hsplit, Hperm. unfold V, N.
    rewrite <- (filter_app_complement (fun r => is_nat_row r = false) df) at 3.
    apply Permutation_app_head.
    rewrite (list_filter_iff (fun r => ¬ is_nat_row r = false) (fun r => is_nat_row r = true));
      [reflexivity|].
    intros r. destruct (is_nat_row r); split; congruence.
  - exists dated. split; [exact Hsplit|]. split; [exact Hkeyed|]. split.
    + unfold dated, V. rewrite (sorted_part_keys argsort df Hspec).
      apply (Hspec (omap row_key df)).
    + rewrite Hsplit, filter_app, !Hnull.
      replace (filter (fun r => is_nat_row r = true) dated) with (@nil df_row).
      * simpl. unfold N. rewrite list_filter_filter.
        apply list_filter_iff. intros r. tauto.
      * symmetry. clear -Hkeyed.
        induction Hkeyed as [|r l [k Hk] _ IH]; [reflexivity|].
        rewrite filter_cons_False; [exact IH|].
        unfold is_nat_row. rewrite Hk. discriminate.
Qed.

Lemma export_rows_sorted_nulls_last_witness :
  Permutation (sort_values argsort_stable (data_frame strptime_exif mixed_batch))
    (data_frame strptime_exif mixed_batch)
  /\ filter (fun r => row_key r = None)
       (sort_values argsort_stable (data_frame strptime_exif mixed_batch))
     = filter (fun r => row_key r = None) (data_frame strptime_exif mixed_batch).
Proof.
  destruct (export_rows_sorted_nulls_last strptime_exif argsort_stable mixed_batch
              argsort_stable_spec ltac:(discriminate))
    as (_ & Hperm & dated & _ & _ & _ & Hnull).
  exact (conj Hperm Hnull).
Defined.

Example mixed_batch_order :
  File <$> (fst <$> sort_values argsort_stable (data_frame strptime_exif mixed_batch))
  = ["early.jpg"; "late.jpg"; "undated.jpg"; "garbled.jpg"].
Proof. reflexivity. Qed.

(** C4, as stated, fails: [sort_values] is called with the default
    [kind="quicksort"], of which only the order of the keys is promised.
    An argsort that meets that promise may return eighteen rows of equal
    timestamp in another order than the batch's. *)
Lemma equal_timestamps_reordered :
  argsort_spec argsort_reversing
  /\ ~ keeps_batch_order (data_frame strptime_exif tied_batch)
         (sort_values argsort_reversing (data_frame strptime_exif tied_batch)).
Proof.
  split; [exact argsort_reversing_spec|].
  intros H. specialize (H (Some 1704164645000000000)).
  vm_compute in H. discriminate H.
Qed.

(** ** The exported table *)







(** * Further properties of the code *)

(** ** The converter's failures *)

Lemma py_float_exif (n : Z) : exif_int n -> Float.py_float n = Ok (Float.of_Z n).
Proof.
  intros Hn. unfold exif_int in Hn. unfold Float.py_float.
  destruct (Z.eq_dec n 0) as [->|Hnz]; [reflexivity|].
  destruct (of_Z_small n Hnz ltac:(lia)) as (m & e & ->). reflexivity.
Qed.

Lemma ratio_to_float_zero_den (r : Ratio) :
  exif_ratio r -> den r = 0 -> ratio_to_float r = Raise ZeroDivisionError.
Proof.
  intros [Hn Hd] Hz. unfold ratio_to_float.
  rewrite (py_float_exif _ Hn), Hz. reflexivity.
Qed.

Lemma convert_to_degrees_zero_denominator_lat (p : string) (d m s : Ratio) :
  exif_ratio d -> exif_ratio m -> exif_ratio s ->
  den d = 0 \/ den m = 0 \/ den s = 0 ->
  convert_to_degrees (mkIfdTag p (VRatios [d; m; s])) = Raise ZeroDivisionError.
Proof.
  intros Hd Hm Hs Hz. unfold convert_to_degrees. simpl.
  destruct (Z.eq_dec (den d) 0) as [Zd|Nd].
  { rewrite (ratio_to_float_zero_den d Hd Zd). reflexivity. }
  rewrite (ratio_to_float_ok d Hd Nd). simpl.
  destruct (Z.eq_dec (den m) 0) as [Zm|Nm].
  { rewrite (ratio_to_float_zero_den m Hm Zm). reflexivity. }
  rewrite (ratio_to_float_ok m Hm Nm). simpl.
  destruct (Z.eq_dec (den s) 0) as [Zs|Ns].
  { rewrite (ratio_to_float_zero_den s Hs Zs). reflexivity. }
  exfalso. tauto.
Qed.

(** X1. A zero denominator in the degrees, the minutes or the seconds
    makes the converter raise [ZeroDivisionError]: it never returns a
    value, an infinity or a NaN for such a tag. *)
Theorem convert_to_degrees_zero_denominator (p : string) (d m s : Ratio) :
  exif_ratio d -> exif_ratio m -> exif_ratio s ->
  den d = 0 \/ den m = 0 \/ den s = 0 ->
  convert_to_degrees (mkIfdTag p (VRatios [d; m; s])) = Raise ZeroDivisionError.
Proof. apply convert_to_degrees_zero_denominator_lat. Qed.

Lemma convert_to_degrees_zero_denominator_witness :
  convert_to_degrees (mkIfdTag "[0/0, 0/0, 0/0]"
                        (VRatios [mkRatio 0 0; mkRatio 0 0; mkRatio 0 0]))
  = Raise ZeroDivisionError.
Proof.
  apply convert_to_degrees_zero_denominator;
    unfold exif_ratio, exif_int; simpl; lia.
Defined.

(** X2. A tag with fewer than three rationals makes the converter raise
    [IndexError], whatever the rationals present are worth. *)
Theorem convert_to_degrees_short_tag (p : string) (l : list Ratio) :
  Forall (fun r => exif_ratio r /\ den r <> 0) l ->
  (length l < 3)%nat ->
  convert_to_degrees (mkIfdTag p (VRatios l)) = Raise IndexError.
Proof.
  intros Hall Hlen. unfold convert_to_degrees. simpl.
  destruct l as [|d l]; [reflexivity|].
  apply Forall_cons in Hall as [[Hd Nd] Hall].
  simpl. rewrite (ratio_to_float_ok d Hd Nd). simpl.
  destruct l as [|m l]; [reflexivity|].
  apply Forall_cons in Hall as [[Hm Nm] Hall].
  simpl. rewrite (ratio_to_float_ok m Hm Nm). simpl.
  destruct l as [|s l]; [reflexivity|].
  simpl in Hlen. lia.
Qed.

Lemma convert_to_degrees_short_tag_witness :
  convert_to_degrees (mkIfdTag "[35, 40]" (VRatios [mkRatio 35 1; mkRatio 40 1]))
  = Raise IndexError.
Proof.
  apply convert_to_degrees_short_tag.
  - repeat constructor; unfold exif_int; simpl; lia.
  - simpl. lia.
Defined.

(** ** The hemisphere sign *)

Lemma neg_nonneg_le0 (f : spec_float) :
  Float.nonneg_shape f -> float_le0 (Float.neg f) = true.
Proof.
  destruct f as [s|s| |s m e]; simpl; intros H; try contradiction; subst;
    reflexivity.
Qed.

(** X3. With non-negative components, a latitude reference other than
    ["N"] gives a latitude [<= 0.0] and a longitude reference other than
    ["E"] a longitude [<= 0.0]: southern and western positions never come
    out positive. *)
Theorem other_hemisphere_nonpositive
    (tags : gmap string IfdTag) (p1 p2 : string)
    (d1 m1 s1 d2 m2 s2 : Ratio) (la_ref lo_ref : IfdTag) (rlat rlon : string) :
  valid_dms d1 m1 s1 -> valid_dms d2 m2 s2 ->
  nonneg_dms d1 m1 s1 -> nonneg_dms d2 m2 s2 ->
  tags !! "GPS GPSLatitude" = Some (mkIfdTag p1 (VRatios [d1; m1; s1])) ->
  tags !! "GPS GPSLatitudeRef" = Some la_ref -> values la_ref = VStr rlat ->
  tags !! "GPS GPSLongitude" = Some (mkIfdTag p2 (VRatios [d2; m2; s2])) ->
  tags !! "GPS GPSLongitudeRef" = Some lo_ref -> values lo_ref = VStr rlon ->
  exists lat lon dt,
    gps_from_tags tags = Ok (Some lat, Some lon, dt)
    /\ (rlat <> "N" -> float_le0 lat = true)
    /\ (rlon <> "E" -> float_le0 lon = true).
Proof.
  intros V1 V2 N1 N2 Hla Hlar Vlar Hlo Hlor Vlor.
  pose proof (nonneg_dms_ge0 _ _ _ V1 N1) as S1.
  pose proof (nonneg_dms_ge0 _ _ _ V2 N2) as S2.
  unfold gps_from_tags.
  rewrite Hla, Hlar, Hlo, Hlor.
  rewrite (convert_to_degrees_ok p1 _ _ _ V1), (convert_to_degrees_ok p2 _ _ _ V2).
  simpl. rewrite Vlar, Vlor. simpl.
  eexists _, _, _. split; [reflexivity|]. split.
  - intros Hne. destruct (String.eqb_spec rlat "N") as [->|_]; [congruence|].
    simpl. apply neg_nonneg_le0. exact S1.
  - intros Hne. destruct (String.eqb_spec rlon "E") as [->|_]; [congruence|].
    simpl. apply neg_nonneg_le0. exact S2.
Qed.

Lemma other_hemisphere_nonpositive_witness :
  exists lat lon dt,
    gps_from_tags rio_tags = Ok (Some lat, Some lon, dt)
    /\ ("S" <> "N" -> float_le0 lat = true)
    /\ ("W" <> "E" -> float_le0 lon = true).
Proof.
  apply (other_hemisphere_nonpositive rio_tags "dms" "dms"
           (mkRatio 22 1) (mkRatio 54 1) (mkRatio 30 1)
           (mkRatio 43 1) (mkRatio 10 1) (mkRatio 12 1)
           (ascii_tag "S") (ascii_tag "W") "S" "W");
    try reflexivity;
    unfold valid_dms, nonneg_dms, exif_ratio, exif_int; simpl; lia.
Defined.

(** ** The reader on incomplete and malformed tags *)

(** X4. When one of the four GPS tags is missing, the reader returns
    absent coordinates and the capture time, if any; the tags that are
    present are not converted, so a malformed one raises nothing. *)
Theorem missing_gps_tag_reads_absent (tags : gmap string IfdTag) :
  ~ four_gps_tags tags ->
  gps_from_tags tags = Ok (None, None, printable <$> tags !! "EXIF DateTimeOriginal").
Proof.
  unfold four_gps_tags, gps_from_tags. intros H.
  destruct (tags !! "GPS GPSLatitude") as [la|]; [|reflexivity].
  destruct (tags !! "GPS GPSLatitudeRef") as [lar|]; [|reflexivity].
  destruct (tags !! "GPS GPSLongitude") as [lo|]; [|reflexivity].
  destruct (tags !! "GPS GPSLongitudeRef") as [lor|]; [|reflexivity].
  exfalso. apply H. repeat split; eauto.
Qed.

Lemma missing_gps_tag_reads_absent_witness :
  gps_from_tags latitude_only_tags = Ok (None, None, Some "2024:01:02 03:04:05").
Proof.
  apply (missing_gps_tag_reads_absent latitude_only_tags).
  intros (_ & [x Hx] & _). vm_compute in Hx. discriminate Hx.
Defined.

(** X5. A non-HEIC image that carries the four GPS tags with a zero
    denominator in a coordinate is not read as "no position": the reader
    raises [ZeroDivisionError], capture time or not. *)
Theorem zero_denominator_fails_the_read
    (self : extractor) (path : string) (w : world) (b : blob)
    (tags : gmap string IfdTag) (p1 p2 : string)
    (d1 m1 s1 d2 m2 s2 : Ratio) (la_ref lo_ref : IfdTag) :
  endswith (lower path) ".heic" = false ->
  files w !! path = Some (FBlob b) ->
  exif_read b = Ok tags ->
  tags !! "GPS GPSLatitude" = Some (mkIfdTag p1 (VRatios [d1; m1; s1])) ->
  tags !! "GPS GPSLatitudeRef" = Some la_ref ->
  tags !! "GPS GPSLongitude" = Some (mkIfdTag p2 (VRatios [d2; m2; s2])) ->
  tags !! "GPS GPSLongitudeRef" = Some lo_ref ->
  Forall exif_ratio [d1; m1; s1; d2; m2; s2] ->
  Exists (fun r => den r = 0) [d1; m1; s1; d2; m2; s2] ->
  (get_gps_info self path w).2 = Raise ZeroDivisionError.
Proof.
  intros Hext Hfile Hread Hla Hlar Hlo Hlor Hall Hzero.
  rewrite (get_gps_info_plain self path w Hext). simpl.
  unfold tags_of_file. rewrite Hfile, Hread. simpl.
  unfold gps_from_tags. rewrite Hla, Hlar, Hlo, Hlor.
  repeat match goal with
         | H : Forall _ (_ :: _) |- _ => apply Forall_cons in H as [? H]
         end.
  destruct (Z.eq_dec (den d1) 0) as [?|N1];
    [rewrite convert_to_degrees_zero_denominator_lat by auto; reflexivity|].
  destruct (Z.eq_dec (den m1) 0) as [?|N2];
    [rewrite convert_to_degrees_zero_denominator_lat by auto; reflexivity|].
  destruct (Z.eq_dec (den s1) 0) as [?|N3];
    [rewrite convert_to_degrees_zero_denominator_lat by auto; reflexivity|].
  rewrite (convert_to_degrees_ok p1 d1 m1 s1) by (unfold valid_dms; auto).
  simpl.
  rewrite convert_to_degrees_zero_denominator_lat; [reflexivity|auto..].
  repeat match goal with
         | H : Exists _ (_ :: _) |- _ => apply Exists_cons in H as [?|H]
         | H : Exists _ [] |- _ => apply Exists_nil in H; destruct H
         end; try congruence; auto.
Qed.

Lemma zero_denominator_fails_the_read_witness :
  (get_gps_info gradio_extractor "output/unzip/nofix.jpg"
     (staged [("output/unzip/nofix.jpg", jpeg_file no_fix_tags)])).2
  = Raise ZeroDivisionError.
Proof.
  apply (zero_denominator_fails_the_read gradio_extractor "output/unzip/nofix.jpg"
           (staged [("output/unzip/nofix.jpg", jpeg_file no_fix_tags)])
           (jpeg_file no_fix_tags) no_fix_tags "[0/0, 0/0, 0/0]" "[0/0, 0/0, 0/0]"
           (mkRatio 0 0) (mkRatio 0 0) (mkRatio 0 0)
           (mkRatio 0 0) (mkRatio 0 0) (mkRatio 0 0)
           (ascii_tag "N") (ascii_tag "E"));
    try reflexivity.
  - repeat constructor; unfold exif_int; simpl; lia.
  - left. reflexivity.
Defined.

(** ** Reading and the file system *)



(** X7. Reading a file whose name does not end in [.heic] creates,
    changes and deletes nothing: files and directories are as before and
    the log gains the one read.  A path without a file raises
    [FileNotFoundError]. *)
Theorem plain_read_touches_nothing (self : extractor) (path : string) (w : world) :
  endswith (lower path) ".heic" = false ->
  files (get_gps_info self path w).1 = files w
  /\ dirs (get_gps_info self path w).1 = dirs w
  /\ log (get_gps_info self path w).1 = log w ++ [EvOpenRead path]
  /\ (files w !! path = None ->
      (get_gps_info self path w).2 = Raise (FileNotFoundError path)).
Proof.
  intros Hext. rewrite (get_gps_info_plain self path w Hext). simpl.
  repeat split. intros Hnone. unfold tags_of_file. rewrite Hnone. reflexivity.
Qed.

Lemma plain_read_touches_nothing_witness :
  files (get_gps_info gradio_extractor "output/unzip/gone.png" equator_dir).1
  = files equator_dir
  /\ dirs (get_gps_info gradio_extractor "output/unzip/gone.png" equator_dir).1
     = dirs equator_dir
  /\ log (get_gps_info gradio_extractor "output/unzip/gone.png" equator_dir).1
     = log equator_dir ++ [EvOpenRead "output/unzip/gone.png"]
  /\ (files equator_dir !! "output/unzip/gone.png" = None ->
      (get_gps_info gradio_extractor "output/unzip/gone.png" equator_dir).2
      = Raise (FileNotFoundError "output/unzip/gone.png")).
Proof.
  apply (plain_read_touches_nothing gradio_extractor "output/unzip/gone.png" equator_dir).
  reflexivity.
Defined.

(** X8. A HEIC file that Pillow cannot open is found out too late for
    the scratch directory: it is cleared before the file is opened, so the
    read raises Pillow's error and the transcoded copy of the file read
    before is gone all the same. *)
Theorem unreadable_heic_still_clears_scratch
    (self : extractor) (path : string) (w : world) (b : blob) (e : exn) :
  endswith (lower path) ".heic" = true ->
  within (jpg_path self) path = false ->
  files w !! path = Some (FBlob b) ->
  pil_open b = Raise e ->
  (get_gps_info self path w).2 = Raise e
  /\ forall q, within (jpg_path self) q = true ->
       files (get_gps_info self path w).1 !! q = None.
Proof.
  intros Hext Hout Hfile Hopen.
  destruct (clear_dir_files (jpg_path self) w) as [Hr Hf].
  destruct (clear_dir (jpg_path self) w) as [w1 r1] eqn:Ec.
  simpl in Hr, Hf. subst r1.
  assert (E : exists d l,
             get_gps_info self path w = (mkWorld (files w1) d l, Raise e)).
  { unfold get_gps_info. rewrite Hext. unfold normalize_heic, bind. rewrite Ec.
    unfold makedirs, image_open, emit, bind. simpl.
    rewrite Hf, Hout, Hfile, Hopen. eexists _, _. reflexivity. }
  destruct E as (d & l & ->). simpl. split; [reflexivity|].
  intros q Hq. rewrite Hf, Hq. reflexivity.
Qed.

Lemma unreadable_heic_still_clears_scratch_witness :
  let w1 := (get_gps_info gradio_extractor "output/unzip/a.heic"
               (staged (("output/unzip/bad.heic", corrupt_file) :: two_heic_files))).1 in
  (get_gps_info gradio_extractor "output/unzip/bad.heic" w1).2
  = Raise (UnidentifiedImageError "cannot identify image file")
  /\ forall q, within (jpg_path gradio_extractor) q = true ->
       files (get_gps_info gradio_extractor "output/unzip/bad.heic" w1).1 !! q = None.
Proof.
  apply (unreadable_heic_still_clears_scratch gradio_extractor "output/unzip/bad.heic"
           (get_gps_info gradio_extractor "output/unzip/a.heic"
              (staged (("output/unzip/bad.heic", corrupt_file) :: two_heic_files))).1
           corrupt_file (UnidentifiedImageError "cannot identify image file"));
    reflexivity.
Defined.

(** ** What a batch holds *)

Lemma scan_files_inv (self : extractor) (entries : list (string * string)) :
  forall (data out : list record) (w w' : world),
    scan_files self entries data w = (w', Ok out) ->
    exists new,
      out = data ++ new
      /\ Forall (fun r => UserID r = user_id self
                          /\ Float.truthy (Latitude r) = true
                          /\ Float.truthy (Longitude r) = true) new
      /\ sublist (File <$> new) (visited_names entries).
Proof.
  unfold visited_names.
  induction entries as [|[root file] rest IH]; intros data out w w' H; simpl in H.
  - injection H as _ <-. exists []. rewrite app_nil_r.
    split; [reflexivity|]. split; constructor.
  - rewrite filter_cons. simpl.
    destruct (supported_ext file) eqn:Hsup.
    + rewrite decide_True by reflexivity. rewrite fmap_cons. simpl.
      unfold bind in H.
      destruct (get_gps_info self (path_join root file) w) as [w1 [[[lat lon] dt]|e]];
        [|discriminate].
      destruct (coord_truthy lat && coord_truthy lon) eqn:Htruthy.
      * destruct lat as [la|], lon as [lo|]; simpl in Htruthy;
          rewrite ?andb_false_r in Htruthy; try discriminate.
        apply andb_true_iff in Htruthy as [Hla Hlo].
        apply IH in H as (new & -> & Hall & Hsub).
        exists (mkRecord (user_id self) file la lo dt :: new).
        rewrite <- app_assoc. split; [reflexivity|]. split.
        -- constructor; [simpl; auto | exact Hall].
        -- rewrite fmap_cons. simpl. apply sublist_skip. exact Hsub.
      * apply IH in H as (new & -> & Hall & Hsub).
        exists new. split; [reflexivity|]. split; [exact Hall|].
        apply sublist_cons. exact Hsub.
    + rewrite decide_False by congruence.
      apply IH in H. exact H.
Qed.

Lemma extract_gps_from_images_inv (self : extractor) (folder : string)
    (w w' : world) (out : list record) :
  extract_gps_from_images self folder w = (w', Ok out) ->
  exists entries,
    (os_walk folder w).2 = Ok entries
    /\ Forall (fun r => UserID r = user_id self
                        /\ Float.truthy (Latitude r) = true
                        /\ Float.truthy (Longitude r) = true) out
    /\ sublist (File <$> out) (visited_names entries).
Proof.
  unfold extract_gps_from_images, bind, os_walk, emit, bind. simpl.
  intros H. apply scan_files_inv in H as (new & -> & Hall & Hsub).
  eexists. split; [reflexivity|]. split; assumption.
Qed.

Lemma visited_names_supported (entries : list (string * string)) (name : string) :
  name ∈ visited_names entries -> supported_ext name = true.
Proof.
  unfold visited_names. intros H.
  apply list_elem_of_fmap in H as ([root file] & -> & Hin).
  apply list_elem_of_filter in Hin as [Hsup _]. exact Hsup.
Qed.

(** X9. Every record of a batch carries the extractor's identifier, the
    name of a file with a supported extension, and a latitude and a
    longitude that are both different from zero: a batch never holds a
    coordinate [0.0]. *)
Theorem batch_records_invariant (self : extractor) (folder : string)
    (w w' : world) (out : list record) :
  extract_gps_from_images self folder w = (w', Ok out) ->
  Forall (fun r => UserID r = user_id self
                   /\ supported_ext (File r) = true
                   /\ Float.is_zero (Latitude r) = false
                   /\ Float.is_zero (Longitude r) = false) out.
Proof.
  intros H. apply extract_gps_from_images_inv in H as (entries & _ & Hall & Hsub).
  apply Forall_forall. intros r Hr.
  pose proof (proj1 (Forall_forall _ _) Hall r Hr) as (Hu & Hla & Hlo).
  split; [exact Hu|]. split.
  - apply (visited_names_supported entries).
    eapply elem_of_sublist; [|exact Hsub].
    apply list_elem_of_fmap. exists r. split; [reflexivity | exact Hr].
  - unfold Float.truthy in Hla, Hlo.
    split; apply negb_true_iff; assumption.
Qed.

Lemma batch_records_invariant_witness :
  Forall (fun r => UserID r = user_id gradio_extractor
                   /\ supported_ext (File r) = true
                   /\ Float.is_zero (Latitude r) = false
                   /\ Float.is_zero (Longitude r) = false) [good_record].
Proof.
  apply (batch_records_invariant gradio_extractor "output/unzip"
           (staged [("output/unzip/good.jpg", jpeg_file tokyo_tags)])
           (extract_gps_from_images gradio_extractor "output/unzip"
              (staged [("output/unzip/good.jpg", jpeg_file tokyo_tags)])).1).
  reflexivity.
Defined.

(** X10. A batch follows the traversal: the file names of its records
    are, in order, names of supported files that [os.walk] listed, each
    listed file giving at most one record; so a batch is never longer
    than the number of supported files. *)
Theorem batch_follows_traversal (self : extractor) (folder : string)
    (w w' : world) (out : list record) :
  extract_gps_from_images self folder w = (w', Ok out) ->
  exists entries,
    (os_walk folder w).2 = Ok entries
    /\ sublist (File <$> out) (visited_names entries)
    /\ (length out <= length (visited_names entries))%nat.
Proof.
  intros H. apply extract_gps_from_images_inv in H as (entries & Hwalk & _ & Hsub).
  exists entries. split; [exact Hwalk|]. split; [exact Hsub|].
  apply sublist_length in Hsub. rewrite length_fmap in Hsub. exact Hsub.
Qed.

Lemma batch_follows_traversal_witness :
  exists entries,
    (os_walk "output/unzip" trip_dir).2 = Ok entries
    /\ sublist (File <$> [good_record]) (visited_names entries)
    /\ (length [good_record] <= length (visited_names entries))%nat.
Proof.
  apply (batch_follows_traversal gradio_extractor "output/unzip" trip_dir
           (extract_gps_from_images gradio_extractor "output/unzip" trip_dir).1).
  reflexivity.
Defined.

(** X11. Files without a supported extension are never opened: when the
    tree holds no name ending in [.jpg], [.jpeg], [.png] or [.heic]
    (in any case), the scan returns the empty batch and leaves files and
    directories as they were, with the walk as its only effect. *)
Theorem unsupported_files_are_not_read (self : extractor) (folder : string) (w : world) :
  (forall entries, (os_walk folder w).2 = Ok entries ->
     Forall (fun e => supported_ext e.2 = false) entries) ->
  extract_gps_from_images self folder w
  = (mkWorld (files w) (dirs w) (log w ++ [EvWalk folder]), Ok []).
Proof.
  intros H. unfold extract_gps_from_images, bind, os_walk, emit, bind in *.
  simpl in *. specialize (H _ eq_refl).
  set (w0 := mkWorld (files w) (dirs w) (log w ++ [EvWalk folder])).
  generalize (@nil record) as data.
  induction H as [|[root file] rest Hsup _ IH]; intros data; [reflexivity|].
  simpl in *. rewrite Hsup. apply IH.
Qed.

Lemma unsupported_files_are_not_read_witness :
  extract_gps_from_images gradio_extractor "output/unzip" documents_dir
  = (mkWorld (files documents_dir) (dirs documents_dir)
       (log documents_dir ++ [EvWalk "output/unzip"]), Ok []).
Proof.
  apply (unsupported_files_are_not_read gradio_extractor "output/unzip" documents_dir).
  intros entries Hwalk. vm_compute in Hwalk. injection Hwalk as <-.
  repeat constructor.
Defined.

(** ** The Archive Stager *)

Lemma append_cons (c : ascii) (a b : string) :
  String.append (String c a) b = String c (String.append a b).
Proof. reflexivity. Qed.

Lemma length_append (a b : string) :
  String.length (String.append a b) = (String.length a + String.length b)%nat.
Proof.
  induction a as [|c a IH]; [reflexivity|].
  rewrite append_cons. simpl. rewrite IH. reflexivity.
Qed.

Lemma endswith_cons (c : ascii) (s suffix : string) :
  (String.length suffix <= String.length s)%nat ->
  endswith (String c s) suffix = endswith s suffix.
Proof.
  intros Hlen. unfold endswith. simpl String.length.
  rewrite (proj2 (Nat.leb_le _ _) Hlen).
  rewrite (proj2 (Nat.leb_le (String.length suffix) (S (String.length s))) ltac:(lia)).
  replace (S (String.length s) - String.length suffix)%nat
    with (S (String.length s - String.length suffix)) by lia.
  reflexivity.
Qed.

Lemma unzip_path_shape (self : extractor) :
  String.eqb (unzip_path self) EmptyString = false
  /\ endswith (unzip_path self) "/" = false.
Proof.
  unfold unzip_path. generalize (output_folder self) as x.
  induction x as [|c x [_ IH]].
  - split; reflexivity.
  - rewrite append_cons. split; [reflexivity|].
    rewrite endswith_cons; [exact IH|].
    rewrite length_append. simpl. lia.
Qed.

Lemma split_slash_parts (name : string) :
  Forall (fun part => has_slash part = false) (split_slash name).
Proof.
  induction name as [|c name IH]; simpl.
  - repeat constructor.
  - destruct (Ascii.eqb c "/") eqn:Ec.
    + constructor; [reflexivity | exact IH].
    + destruct (split_slash name) as [|x r].
      * constructor; [simpl; rewrite Ec; reflexivity | constructor].
      * apply Forall_cons in IH as [Hx Hr].
        constructor; [simpl; rewrite Ec, Hx; reflexivity | exact Hr].
Qed.

Lemma arcname_relative (name : string) : String.prefix "/" (arcname name) = false.
Proof.
  unfold arcname.
  pose proof (split_slash_parts name) as Hparts.
  set (keep := filter _ (split_slash name)).
  assert (Hkeep : Forall (fun part => has_slash part = false /\ part <> EmptyString) keep).
  { apply Forall_forall. intros part Hin.
    apply list_elem_of_filter in Hin as [(Hne & _) Hin].
    split; [|exact Hne].
    exact (proj1 (Forall_forall _ _) Hparts part Hin). }
  destruct Hkeep as [|part rest [Hslash Hne] _]; [reflexivity|].
  destruct part as [|c part]; [congruence|].
  simpl in Hslash. apply orb_false_iff in Hslash as [Hc _].
  assert (Hhead : forall tail, String.prefix "/" (String c tail) = false).
  { intros tail.
    change (String.prefix "/" (String c tail))
      with (if ascii_dec "/" c then String.prefix EmptyString tail else false).
    destruct (ascii_dec "/" c) as [<-|_]; [discriminate|reflexivity]. }
  simpl. destruct rest; [apply Hhead|].
  rewrite append_cons. apply Hhead.
Qed.

(** Where a member of the archive is written. *)
Lemma member_path (self : extractor) (name : string) :
  path_join (unzip_path self) (arcname name)
  = String.append (unzip_path self) (String.append "/" (arcname name))
  /\ within (unzip_path self) (path_join (unzip_path self) (arcname name)) = true.
Proof.
  destruct (unzip_path_shape self) as [Hne Hend].
  assert (E : path_join (unzip_path self) (arcname name)
              = String.append (unzip_path self) (String.append "/" (arcname name))).
  { unfold path_join. rewrite arcname_relative, Hne, Hend. reflexivity. }
  split; [exact E|].
  rewrite E. unfold within. rewrite prefix_append_same. apply orb_true_r.
Qed.

Lemma extract_members_files (self : extractor) (es : list (string * blob)) :
  forall w : world,
    (forall q, within (unzip_path self) q = false ->
       files (extract_members (unzip_path self) es w).1 !! q = files w !! q)
    /\ (forall q f, files (extract_members (unzip_path self) es w).1 !! q = Some f ->
          files w !! q = Some f
          \/ exists name b, (name, b) ∈ es /\ f = FBlob b
               /\ q = path_join (unzip_path self) (arcname name)).
Proof.
  induction es as [|[name b] rest IH]; intros w.
  - simpl. split; [reflexivity | auto].
  - simpl extract_members. unfold bind, extract_member. simpl.
    destruct (endswith name "/").
    + destruct (IH (mkWorld (files w)
                      ({[ path_join (unzip_path self) (arcname name) ]} ∪ dirs w) (log w)))
        as [Hout Hin].
      split; [exact Hout|].
      intros q f Hq. destruct (Hin q f Hq) as [?|(n & b' & Hmem & ? & ?)]; [auto|].
      right. exists n, b'. split; [right; exact Hmem | auto].
    + destruct (String.eqb (arcname name) EmptyString).
      * simpl. split; [reflexivity | auto].
      * unfold write_file. simpl.
        destruct (IH (mkWorld (<[ path_join (unzip_path self) (arcname name) := FBlob b ]>
                                 (files w)) (dirs w) (log w))) as [Hout Hin].
        simpl in Hout, Hin. split.
        -- intros q Hq. rewrite (Hout q Hq).
           apply lookup_insert_ne. intros <-.
           rewrite (proj2 (member_path self name)) in Hq. discriminate.
        -- intros q f Hq. destruct (Hin q f Hq) as [Hold|(n & b' & Hmem & ? & ?)].
           ++ destruct (decide (path_join (unzip_path self) (arcname name) = q)) as [<-|Hne].
              ** rewrite lookup_insert_eq in Hold. injection Hold as <-.
                 right. exists name, b. split; [left|]; auto.
              ** rewrite lookup_insert_ne in Hold by exact Hne. auto.
           ++ right. exists n, b'. split; [right; exact Hmem | auto].
Qed.

(** The files after [extract_zip], whatever its outcome. *)
Lemma extract_zip_files (self : extractor) (src : zip_source) (w : world) :
  (forall q, within (unzip_path self) q = false ->
     files (extract_zip self src w).1 !! q = files w !! q)
  /\ (forall q f, within (unzip_path self) q = true ->
        files (extract_zip self src w).1 !! q = Some f ->
        exists es name b,
          archive_entries src w = Some es /\ (name, b) ∈ es /\ f = FBlob b
          /\ q = path_join (unzip_path self) (arcname name))
  /\ (archive_entries src w = None ->
      (exists e, (extract_zip self src w).2 = Raise e
                 /\ (e = BadZipFile \/ exists p, e = FileNotFoundError p))
      /\ forall q, within (unzip_path self) q = true ->
           files (extract_zip self src w).1 !! q = None).
Proof.
  destruct (clear_dir_files (unzip_path self) w) as [Hr Hf].
  remember (extract_zip self src w) as X eqn:EX.
  unfold extract_zip in EX. unfold bind at 1 in EX.
  destruct (clear_dir (unzip_path self) w) as [w1 r1]. simpl in Hr, Hf. subst r1.
  set (w2 := (match user_id self with
              | Some _ => makedirs (unzip_path self)
              | None => ret tt
              end w1).1) in *.
  assert (Hw2 : (match user_id self with
                 | Some _ => makedirs (unzip_path self)
                 | None => ret tt
                 end w1) = (w2, Ok tt) /\ files w2 = files w1).
  { unfold w2. destruct (user_id self); split; reflexivity. }
  destruct Hw2 as [Ew2 Fw2]. unfold bind at 1 in EX. rewrite Ew2 in EX.
  set (res := match src with
              | ZipPath p =>
                  match files w1 !! p with
                  | Some (FZip es) => Ok es
                  | Some _ => Raise BadZipFile
                  | None => Raise (FileNotFoundError p)
                  end
              | ZipBytes (FZip es) => Ok es
              | ZipBytes _ => Raise BadZipFile
              end).
  assert (Hopen : zip_open src w2 = (w2, res)).
  { unfold zip_open, res. rewrite Fw2. destruct src as [p|[b|es|t]]; try reflexivity.
    destruct (files w1 !! p) as [[b|es|t]|]; reflexivity. }
  unfold bind at 1 in EX. rewrite Hopen in EX.
  assert (Hcleared : forall q, within (unzip_path self) q = true -> files w2 !! q = None).
  { intros q Hq. rewrite Fw2, Hf, Hq. reflexivity. }
  assert (Hkept : forall q, within (unzip_path self) q = false -> files w2 !! q = files w !! q).
  { intros q Hq. rewrite Fw2, Hf, Hq. reflexivity. }
  assert (Hsrc : forall es, res = Ok es -> archive_entries src w = Some es).
  { intros es. unfold res, archive_entries. destruct src as [p|[b|es'|t]]; try discriminate.
    - rewrite Hf. destruct (within (unzip_path self) p); [discriminate|].
      destruct (files w !! p) as [[b|es'|t]|]; try discriminate. congruence.
    - congruence. }
  assert (Hbad : forall e, res = Raise e -> e = BadZipFile \/ exists p, e = FileNotFoundError p).
  { intros e. unfold res. destruct src as [p|[b|es'|t]]; try (intros [= <-]; auto).
    destruct (files w1 !! p) as [[b|es'|t]|]; intros [= <-]; eauto. }
  clearbody res. destruct res as [es|e].
  - specialize (Hsrc es eq_refl).
    destruct (extract_members_files self es
                (mkWorld (files w2) (dirs w2) (log w2 ++ [EvExtractAll (unzip_path self)])))
      as [Hout Hin].
    assert (E : exists r,
               X = ((extract_members (unzip_path self) es
                       (mkWorld (files w2) (dirs w2)
                          (log w2 ++ [EvExtractAll (unzip_path self)]))).1, r)).
    { rewrite EX. unfold extractall, bind, emit, ret. simpl.
      destruct (extract_members _ es _) as [w3 [[]|e]]; eexists; reflexivity. }
    destruct E as (r & ->). simpl.
    split; [|split].
    + intros q Hq. rewrite (Hout q Hq). simpl. apply Hkept. exact Hq.
    + intros q f Hq Hsome. destruct (Hin q f Hsome) as [Hold|(n & b & Hmem & ? & ?)].
      * simpl in Hold. rewrite (Hcleared q Hq) in Hold. discriminate.
      * exists es, n, b. auto.
    + rewrite Hsrc. discriminate.
  - subst X. simpl. split; [exact Hkept|]. split.
    + intros q f Hq Hsome. rewrite (Hcleared q Hq) in Hsome. discriminate.
    + intros _. split; [|exact Hcleared].
      exists e. split; [reflexivity | apply Hbad; reflexivity].
Qed.

(** X12. After [extract_zip], whatever its outcome, every file in the
    unpack directory is a member of the archive just given, at the place
    its sanitized name assigns: nothing of an earlier run is left there. *)
Theorem unpack_directory_is_fresh (self : extractor) (src : zip_source) (w : world)
    (q : string) (f : file) :
  within (unzip_path self) q = true ->
  files (extract_zip self src w).1 !! q = Some f ->
  exists es name b,
    archive_entries src w = Some es /\ (name, b) ∈ es /\ f = FBlob b
    /\ q = path_join (unzip_path self) (arcname name).
Proof.
  intros Hq Hf.
  destruct (extract_zip_files self src w) as (_ & Hin & _).
  exact (Hin q f Hq Hf).
Qed.

Lemma unpack_directory_is_fresh_witness :
  exists es name b,
    archive_entries (ZipPath "up.zip") stale_run = Some es /\ (name, b) ∈ es
    /\ FBlob (jpeg_file tokyo_tags) = FBlob b
    /\ "output/unzip/trip/a.jpg" = path_join (unzip_path gradio_extractor) (arcname name).
Proof.
  apply (unpack_directory_is_fresh gradio_extractor (ZipPath "up.zip") stale_run
           "output/unzip/trip/a.jpg" (FBlob (jpeg_file tokyo_tags)));
    reflexivity.
Defined.

(** X13. [extract_zip] writes and deletes in the unpack directory only:
    every other path holds after it what it held before, whatever the
    member names of the archive ([zipfile] drops leading slashes and
    [..] components) and whatever the outcome. *)
Theorem extraction_is_confined (self : extractor) (src : zip_source) (w : world)
    (q : string) :
  within (unzip_path self) q = false ->
  files (extract_zip self src w).1 !! q = files w !! q.
Proof.
  intros Hq.
  destruct (extract_zip_files self src w) as (Hout & _ & _).
  exact (Hout q Hq).
Qed.

Lemma extraction_is_confined_witness :
  files (extract_zip gradio_extractor (ZipBytes slip_archive) stale_run).1 !! "home/x.jpg"
  = files stale_run !! "home/x.jpg".
Proof.
  apply (extraction_is_confined gradio_extractor (ZipBytes slip_archive) stale_run
           "home/x.jpg").
  reflexivity.
Defined.

(** X14. What is given as archive is opened only after the unpack
    directory has been cleared: when it is no archive, or no file at all,
    [extract_zip] raises [BadZipFile] or [FileNotFoundError] and the tree
    unpacked by the run before is gone. *)
Theorem bad_archive_still_clears (self : extractor) (src : zip_source) (w : world) :
  archive_entries src w = None ->
  (exists e, (extract_zip self src w).2 = Raise e
             /\ (e = BadZipFile \/ exists p, e = FileNotFoundError p))
  /\ forall q, within (unzip_path self) q = true ->
       files (extract_zip self src w).1 !! q = None.
Proof.
  intros Hnone.
  destruct (extract_zip_files self src w) as (_ & _ & Hbad).
  exact (Hbad Hnone).
Qed.

Lemma bad_archive_still_clears_witness :
  (exists e, (extract_zip gradio_extractor (ZipPath "notes.zip") stale_run).2 = Raise e
             /\ (e = BadZipFile \/ exists p, e = FileNotFoundError p))
  /\ forall q, within (unzip_path gradio_extractor) q = true ->
       files (extract_zip gradio_extractor (ZipPath "notes.zip") stale_run).1 !! q = None.
Proof.
  apply (bad_archive_still_clears gradio_extractor (ZipPath "notes.zip") stale_run).
  reflexivity.
Defined.

(** ** The drivers *)

Lemma extract_zip_ok_path (self : extractor) (src : zip_source) (w w1 : world) (p : string) :
  extract_zip self src w = (w1, Ok p) -> p = unzip_path self.
Proof.
  unfold extract_zip, bind. intros H.
  destruct (clear_dir (unzip_path self) w) as [wa [[]|?]]; [|discriminate].
  destruct (match user_id self with
            | Some _ => makedirs (unzip_path self)
            | None => ret tt
            end wa) as [wb [[]|?]]; [|discriminate].
  destruct (zip_open src wb) as [wc [es|?]]; [|discriminate].
  destruct (extractall es (unzip_path self) wc) as [wd [[]|?]]; [|discriminate].
  unfold ret in H. congruence.
Qed.

Lemma scan_files_frame (self : extractor) (entries : list (string * string)) :
  forall (data : list record) (w : world) (q : string),
    within (jpg_path self) q = false ->
    files (scan_files self entries data w).1 !! q = files w !! q.
Proof.
  induction entries as [|[root file] rest IH]; intros data w q Hq; [reflexivity|].
  simpl. destruct (supported_ext file); [|apply IH; exact Hq].
  pose proof (get_gps_info_frame self (path_join root file) w q Hq) as Hfr.
  unfold bind.
  destruct (get_gps_info self (path_join root file) w) as [w1 [[[lat lon] dt]|e]];
    simpl in Hfr; [|exact Hfr].
  rewrite <- Hfr.
  destruct (coord_truthy lat && coord_truthy lon); [|apply IH; exact Hq].
  destruct lat, lon; apply IH; exact Hq.
Qed.


Lemma sort_values_permutation (argsort : list Z -> list nat) (df : list df_row) :
  argsort_spec argsort -> Permutation (sort_values argsort df) df.
Proof.
  intros Hspec. rewrite (sort_values_split argsort Hspec df).
  set (V := filter (fun r => is_nat_row r = false) df).
  assert (Hperm : Permutation (omap (fun j : nat => V !! j) (argsort (omap row_key df))) V).
  { destruct (Hspec (omap row_key df)) as [Hp _]. rewrite Hp.
    assert (Hlen : length (omap row_key df) = length V).
    { unfold V. rewrite <- (valid_rows_keys df).
      apply length_omap_total, valid_rows_keyed. }
    rewrite Hlen. pose proof (take_all_positions V []) as Hall.
    simpl in Hall. rewrite Hall. reflexivity. }
  rewrite Hperm. unfold V.
  rewrite <- (filter_app_complement (fun r => is_nat_row r = false) df) at 3.
  apply Permutation_app_head.
  rewrite (list_filter_iff (fun r => ¬ is_nat_row r = false) (fun r => is_nat_row r = true));
    [reflexivity|].
  intros r. destruct (is_nat_row r); split; congruence.
Qed.

Lemma export_table_rows (strptime : string -> option Timestamp)
    (argsort : list Z -> list nat) (data : list record) :
  argsort_spec argsort ->
  length (rows (export_table strptime argsort data)) = length data.
Proof.
  intros Hspec. unfold export_table. simpl. rewrite length_fmap.
  rewrite (Permutation_length (sort_values_permutation argsort _ Hspec)).
  unfold data_frame. apply length_fmap.
Qed.

(** X15. Whenever [process_zip] returns, it returns
    [output/gps_data.csv]; the name given ended in [.zip], the archive
    unpacked, the scan gave a batch that is not empty, and the file at the
    returned path holds the export of that batch, one row per record. *)
Theorem process_zip_success
    (strptime : string -> option Timestamp) (argsort : list Z -> list nat)
    (zip_file : option string) (w w' : world) (p : string) :
  argsort_spec argsort ->
  process_zip strptime argsort zip_file w = (w', Ok p) ->
  p = "output/gps_data.csv"
  /\ exists (name : string) (w1 w2 : world) (data : list record),
       zip_file = Some name /\ endswith (lower name) ".zip" = true
       /\ extract_zip gradio_extractor (ZipPath name) w = (w1, Ok "output/unzip")
       /\ extract_gps_from_images gradio_extractor "output/unzip" w1 = (w2, Ok data)
       /\ data <> []
       /\ files w' !! p = Some (FCsv (export_table strptime argsort data))
       /\ length (rows (export_table strptime argsort data)) = length data.
Proof.
  intros Hspec H. unfold process_zip in H.
  destruct zip_file as [name|]; [|discriminate].
  destruct (endswith (lower name) ".zip") eqn:Hext; [|discriminate].
  cbv beta iota delta [negb] in H. unfold bind at 1 in H.
  destruct (extract_zip gradio_extractor (ZipPath name) w) as [w1 [path|e]] eqn:Hstage;
    [|discriminate].
  pose proof (extract_zip_ok_path _ _ _ _ _ Hstage) as ->.
  unfold bind at 1 in H.
  destruct (extract_gps_from_images gradio_extractor (unzip_path gradio_extractor) w1)
    as [w2 [data|e]] eqn:Hscan; [|discriminate].
  destruct data as [|r data]; [discriminate|].
  unfold save_to_csv, to_csv, write_file, emit, bind, ret in H. simpl in H.
  injection H as <- <-.
  split; [reflexivity|].
  exists name, w1, w2, (r :: data).
  repeat split; try assumption; try discriminate.
  - apply lookup_insert_eq.
  - apply export_table_rows. exact Hspec.
Qed.

Lemma process_zip_success_witness :
  "output/gps_data.csv" = "output/gps_data.csv"
  /\ exists (name : string) (w1 w2 : world) (data : list record),
       Some "up.zip" = Some name /\ endswith (lower name) ".zip" = true
       /\ extract_zip gradio_extractor (ZipPath name) stale_run = (w1, Ok "output/unzip")
       /\ extract_gps_from_images gradio_extractor "output/unzip" w1 = (w2, Ok data)
       /\ data <> []
       /\ files (process_zip strptime_exif argsort_stable (Some "up.zip") stale_run).1
            !! "output/gps_data.csv"
          = Some (FCsv (export_table strptime_exif argsort_stable data))
       /\ length (rows (export_table strptime_exif argsort_stable data)) = length data.
Proof.
  apply (process_zip_success strptime_exif argsort_stable (Some "up.zip") stale_run
           (process_zip strptime_exif argsort_stable (Some "up.zip") stale_run).1
           "output/gps_data.csv").
  - exact argsort_stable_spec.
  - reflexivity.
Defined.




(** X17. The scan reads; it writes in the scratch directory of the HEIC
    conversion only. Every path outside it, the unpacked images included,
    holds after [extract_gps_from_images] what it held before, whether the
    scan returns a batch or raises. *)
Theorem scan_writes_scratch_only (self : extractor) (folder : string) (w : world)
    (q : string) :
  within (jpg_path self) q = false ->
  files (extract_gps_from_images self folder w).1 !! q = files w !! q.
Proof.
  intros Hq. unfold extract_gps_from_images, bind, os_walk, emit, bind. simpl.
  rewrite (scan_files_frame self _ [] _ q Hq). reflexivity.
Qed.

Lemma scan_writes_scratch_only_witness :
  files (extract_gps_from_images gradio_extractor "output/unzip" two_heic).1
    !! "output/unzip/a.heic"
  = files two_heic !! "output/unzip/a.heic".
Proof.
  apply (scan_writes_scratch_only gradio_extractor "output/unzip" two_heic
           "output/unzip/a.heic").
  reflexivity.
Defined.






